(** * Chain ID Glossary: the data pipeline of [chain-data.py]

    A shallow embedding of the pipeline (fetch with a one-hour cache,
    normalisation into tabular records, free-text search, sort by column,
    and the orchestrating [main]) together with the properties its
    specification states about it.

    Modelling conventions.
    - Text is a [string] of 8-bit characters.  [lower] is [str.lower] on
      text within ASCII; a search that involves other text is not modelled,
      since Python folds its case by Unicode's tables.
    - A JSON document is a [pyval]; a Python [dict] is an association list in
      insertion order, read with [dict_get].
    - A call either returns, raises, or leaves the fragment of pandas and
      [re] that is modelled here: the three constructors of [outcome].
    - pandas, numpy, [re], requests and Streamlit are not part of the
      program; what it calls of them is modelled from their documentation
      (pandas 2, requests from 2.27, Streamlit from 1.18).
    - The order in which numpy ranks equal keys is not fixed by pandas for its
      default sort kind, so the ranking routine is an interface ([Argsort])
      of which only the contract is used. *)

From Stdlib Require Import String Ascii ZArith List Lia.
From stdpp Require Import base option list strings gmap sorting.

Local Open Scope string_scope.
Local Open Scope list_scope.

(** ** Outcomes of a call *)

Inductive exn : Set :=
  | AttributeError   (* [x.get], [x.lower] on a value without that attribute *)
  | TypeError        (* iterating a non-iterable, ordering unlike values *)
  | KeyError         (* a column label the frame does not have *)
  | ReError.         (* [re.error]: the search term is not a valid pattern *)

Inductive outcome (A : Type) : Type :=
  | Ok (a : A)
  | Raise (e : exn)
  | Unmodelled.
Arguments Ok {A} a.
Arguments Raise {A} e.
Arguments Unmodelled {A}.

#[global] Instance outcome_ret : MRet outcome := fun _ a => Ok a.
#[global] Instance outcome_bind : MBind outcome := fun _ _ f m =>
  match m with
  | Ok a => f a
  | Raise e => Raise e
  | Unmodelled => Unmodelled
  end.
#[global] Instance outcome_fmap : FMap outcome := fun _ _ f m =>
  match m with
  | Ok a => Ok (f a)
  | Raise e => Raise e
  | Unmodelled => Unmodelled
  end.

(** ** Python values *)

#[warnings="-register-all"]
Inductive pyval : Type :=
  | PNone
  | PBool (b : bool)
  | PNum (z : Z)
  | PStr (s : string)
  | PList (l : list pyval)
  | PDict (d : list (string * pyval)).

Definition dict : Type := list (string * pyval).

(** [k in d] and [d.get(k)]. *)
Fixpoint dict_get (d : dict) (k : string) : option pyval :=
  match d with
  | [] => None
  | (k', v) :: d' => if String.eqb k k' then Some v else dict_get d' k
  end.

Definition dict_has (d : dict) (k : string) : bool :=
  match dict_get d k with Some _ => true | None => false end.

(** [d.get(k, default)]. *)
Definition dict_get_default (d : dict) (k : string) (default : pyval) : pyval :=
  match dict_get d k with Some v => v | None => default end.

(** Truth value of an object, as [not data] tests it. *)
Definition truthy (v : pyval) : bool :=
  match v with
  | PNone => false
  | PBool b => b
  | PNum z => negb (Z.eqb z 0)
  | PStr s => negb (String.eqb s "")
  | PList l => match l with [] => false | _ => true end
  | PDict d => match d with [] => false | _ => true end
  end.

Definition is_dict (v : pyval) : bool :=
  match v with PDict _ => true | _ => false end.

(** ** Text *)

Definition lower_ascii (c : ascii) : ascii :=
  let n := nat_of_ascii c in
  if (65 <=? n)%nat && (n <=? 90)%nat then ascii_of_nat (n + 32) else c.

(** Text within ASCII: every character is below 128. *)
Definition is_ascii (s : string) : bool :=
  forallb (fun c => (nat_of_ascii c <? 128)%nat) (list_ascii_of_string s).

(** [s.lower()] as it is on text within ASCII: the letters A to Z are
    lowered.  On other text Python follows Unicode's case tables, which are
    not modelled; there [lower] leaves the characters it does not know as
    they are. *)
Fixpoint lower (s : string) : string :=
  match s with
  | EmptyString => EmptyString
  | String c s' => String (lower_ascii c) (lower s')
  end.

(** [x.get(k, default)] on an arbitrary object: only a dict has [get]. *)
Definition py_get (x : pyval) (k : string) (default : pyval) : outcome pyval :=
  match x with
  | PDict d => Ok (dict_get_default d k default)
  | _ => Raise AttributeError
  end.

(** [x.lower()] on an arbitrary object: only a string has [lower]. *)
Definition py_lower (x : pyval) : outcome pyval :=
  match x with
  | PStr s => Ok (PStr (lower s))
  | _ => Raise AttributeError
  end.

(** [for x in v]: the elements of a list, the keys of a dict, the characters
    of a string; anything else is not iterable. *)
Fixpoint chars (s : string) : list pyval :=
  match s with
  | EmptyString => []
  | String c s' => PStr (String c EmptyString) :: chars s'
  end.

Definition py_iter (v : pyval) : outcome (list pyval) :=
  match v with
  | PList l => Ok l
  | PDict d => Ok (map (fun kv => PStr (fst kv)) d)
  | PStr s => Ok (chars s)
  | _ => Raise TypeError
  end.

(** ** Tabular records *)

(** A cell of the table.  The directory documents strings and booleans in its
    eight fields, and a field may be null; the table is modelled for these.
    Numbers and nested arrays or objects in a field are passed through by the
    normaliser ([chain_info] below) but pandas re-types or prints such columns
    by rules of its own, which are not modelled ([to_cell]). *)
Inductive cell : Set :=
  | CNone
  | CBool (b : bool)
  | CStr (s : string).

Definition record : Type := list (string * cell).

(** A frame is the sequence of its records, each mapping the column labels to
    the cells of that row. *)
Definition DataFrame : Type := list record.

(** The cell a value of a dict becomes, and the row a dict becomes. *)
Definition to_cell (v : pyval) : outcome cell :=
  match v with
  | PNone => Ok CNone
  | PBool b => Ok (CBool b)
  | PStr s => Ok (CStr s)
  | _ => Unmodelled
  end.

Definition to_record (info : dict) : outcome record :=
  mapM (fun kv => c ← to_cell (snd kv); mret (fst kv, c)) info.

(** [pd.DataFrame(chains)] for a list of dicts. *)
Definition pd_DataFrame (chains : list dict) : outcome DataFrame :=
  mapM to_record chains.

(** [pd.DataFrame()] *)
Definition empty_frame : DataFrame := [].

(** [df.empty] *)
Definition df_empty (df : DataFrame) : bool :=
  match df with [] => true | _ => false end.

(** ** Normaliser: [process_chain_data] *)

Definition NA : pyval := PStr "N/A".

(** The body of the loop: the dict built for one raw entry. *)
Definition chain_info (chain : pyval) : outcome dict :=
  logo_uri ← py_get chain "logo_uri" NA;
  name ← py_get chain "chain_name" NA ≫= py_lower;
  chain_id ← py_get chain "chain_id" NA;
  pfm_enabled ← py_get chain "pfm_enabled" NA;
  chain_type ← py_get chain "chain_type" NA;
  is_testnet ← py_get chain "is_testnet" NA;
  pretty_name ← py_get chain "pretty_name" NA;
  bech32_prefix ← py_get chain "bech32_prefix" (PStr "");
  mret [ ("Logo URI", logo_uri);
         ("Name", name);
         ("Chain ID", chain_id);
         ("PFM Enabled", pfm_enabled);
         ("Chain Type", chain_type);
         ("Is Testnet", is_testnet);
         ("Pretty Name", pretty_name);
         ("Bech32 Prefix", bech32_prefix) ].

(** [k in v] and [v[k]] for a key [k]; [process_chain_data] reaches both on a
    dict only. *)
Definition py_in (k : string) (v : pyval) : bool :=
  match v with PDict d => dict_has d k | _ => false end.

Definition py_getitem (v : pyval) (k : string) : outcome pyval :=
  match v with
  | PDict d => match dict_get d k with Some x => Ok x | None => Raise KeyError end
  | _ => Raise TypeError
  end.

Definition process_chain_data (data : pyval) : outcome DataFrame :=
  if negb (truthy data) || negb (is_dict data) || negb (py_in "chains" data)
  then Ok empty_frame
  else
    entries ← py_getitem data "chains" ≫= py_iter;
    chains ← mapM chain_info entries;
    pd_DataFrame chains.

(** The eight column labels, in the order of the dict literal. *)
Definition chain_columns : list string :=
  [ "Logo URI"; "Name"; "Chain ID"; "PFM Enabled";
    "Chain Type"; "Is Testnet"; "Pretty Name"; "Bech32 Prefix" ].

(** ** Filterer: the search box *)

(** [str(x)] of a cell, as [row.astype(str)] applies it to the objects of
    a row (null included, which becomes the text "None"). *)
Definition py_str (c : cell) : string :=
  match c with
  | CNone => "None"
  | CBool true => "True"
  | CBool false => "False"
  | CStr s => s
  end.

(** The search term is handed to [Series.str.contains], whose [regex]
    argument defaults to true: the term is compiled by [re] with the
    IGNORECASE flag and each cell is searched for a match.  The fragment of
    the pattern syntax modelled here: ordinary characters, the dot, and a
    backslash before a punctuation character.  A term that uses any other
    construct is [Unmodelled], except where [re] is known to reject it (a
    trailing backslash, a bracket that is never closed). *)
Inductive atom : Set :=
  | Lit (c : ascii)     (* this character, in either case *)
  | AnyChar.            (* the dot: any character but a newline *)

Definition ascii_in (c : ascii) (s : string) : bool :=
  existsb (Ascii.eqb c) (list_ascii_of_string s).

(** The characters [re] reads as syntax. *)
Definition special (c : ascii) : bool := ascii_in c ".^$*+?{}[]\|()".

Definition punctuation (c : ascii) : bool :=
  ascii_in c "!#$%&'()*+,-./:;<=>?@[\]^_`{|}~" || Ascii.eqb c (ascii_of_nat 34).

Fixpoint re_compile (pat : string) : outcome (list atom) :=
  match pat with
  | EmptyString => Ok []
  | String c rest =>
      if Ascii.eqb c "." then cons AnyChar <$> re_compile rest
      else if Ascii.eqb c "\" then
        match rest with
        | EmptyString => Raise ReError
        | String e rest' =>
            if punctuation e then cons (Lit e) <$> re_compile rest'
            else Unmodelled
        end
      else if Ascii.eqb c "[" then
        if ascii_in "]" rest then Unmodelled else Raise ReError
      else if special c then Unmodelled
      else cons (Lit c) <$> re_compile rest
  end.

Definition atom_matches (a : atom) (c : ascii) : bool :=
  match a with
  | Lit l => Ascii.eqb (lower_ascii l) (lower_ascii c)
  | AnyChar => negb (Ascii.eqb c (ascii_of_nat 10))
  end.

(** The pattern matches at the start of [s]. *)
Fixpoint match_here (p : list atom) (s : string) : bool :=
  match p, s with
  | [], _ => true
  | _ :: _, EmptyString => false
  | a :: p', String c s' => atom_matches a c && match_here p' s'
  end.

(** [pat.search(s) is not None]: the pattern matches somewhere in [s]. *)
Fixpoint re_search (p : list atom) (s : string) : bool :=
  match_here p s ||
  match s with
  | EmptyString => false
  | String _ s' => re_search p s'
  end.

Definition row_values (r : record) : list cell := map snd r.

(** The text of every cell of the row is within ASCII. *)
Definition ascii_row (row : record) : bool :=
  forallb (fun c => is_ascii (py_str c)) (row_values row).

(** [row.astype(str).str.contains(search_term, case=False, na=False).any()].
    The term is compiled first, so a term that is no pattern raises whatever
    the row holds.  [atom_matches] folds case as [re.IGNORECASE] does on text
    within ASCII, and takes a character for a code point, which it is there;
    a search that involves other text is not modelled. *)
Definition row_matches (search_term : string) (row : record) : outcome bool :=
  pat ← re_compile search_term;
  if is_ascii search_term && ascii_row row
  then mret (existsb (fun c => re_search pat (py_str c)) (row_values row))
  else Unmodelled.

(** [df[df.apply(f, axis=1)]]: [f] is run on every row in turn, then the rows
    it accepted are kept. *)
Fixpoint df_filter (f : record -> outcome bool) (df : DataFrame) : outcome DataFrame :=
  match df with
  | [] => Ok []
  | row :: df' =>
      b ← f row;
      rest ← df_filter f df';
      mret (if (b : bool) then row :: rest else rest)
  end.

(** Lines 125-129 of [main]: the filter is skipped for the empty term. *)
Definition apply_search (search_term : string) (filtered_df : DataFrame) : outcome DataFrame :=
  if truthy (PStr search_term)
  then df_filter (row_matches search_term) filtered_df
  else Ok filtered_df.

(** ** Sorter: [DataFrame.sort_values] *)

(** [pd.isna] on a cell. *)
Definition cell_isna (c : cell) : bool :=
  match c with CNone => true | _ => false end.

(** Python's [a < b]: strings by code point, booleans with
    [False < True]; unlike kinds, and [None], are not ordered. *)
Definition cell_lt (a b : cell) : outcome bool :=
  match a, b with
  | CStr s, CStr t => Ok (String.ltb s t)
  | CBool x, CBool y => Ok (negb x && y)
  | _, _ => Raise TypeError
  end.

(** [a] may stand before [b] in ascending order: [b < a] is false. *)
Definition cell_le (a b : cell) : Prop := cell_lt b a = Ok false.

Definition is_str (c : cell) : bool :=
  match c with CStr _ => true | _ => false end.
Definition is_bool (c : cell) : bool :=
  match c with CBool _ => true | _ => false end.

(** A column every two values of which Python can compare. *)
Definition orderable (keys : list cell) : bool :=
  forallb is_str keys || forallb is_bool keys.

(** [l[idx]] for an array of positions, each within [l]. *)
Definition take {A} (idx : list nat) (l : list A) : list A :=
  omap (fun i => l !! i) idx.

(** numpy's [argsort] with the default kind: the positions of the keys in
    ascending order.  pandas documents that only the kinds [mergesort] and
    [stable] keep equal keys in their input order, so the default kind is
    known by its contract alone: on an orderable column it returns a
    permutation of the positions that puts the keys in order. *)
Class Argsort : Type := {
  argsort : list cell -> outcome (list nat);
  argsort_sorts : forall keys, orderable keys = true ->
    exists p, argsort keys = Ok p
              /\ p ≡ₚ seq 0 (length keys)
              /\ Sorted cell_le (take p keys)
}.

(** [pandas.core.sorting.nargsort] with [na_position='last']: missing keys
    are set aside and appended last; a descending sort ranks the reversed
    column and reverses the ranking. *)
Definition nargsort `{Argsort} (items : list cell) (ascending : bool) : outcome (list nat) :=
  let idx := seq 0 (length items) in
  let present := fun i => match items !! i with
                          | Some c => negb (cell_isna c) | None => false end in
  let missing := fun i => match items !! i with
                          | Some c => cell_isna c | None => false end in
  let non_nan_idx := List.filter present idx in
  let nan_idx := List.filter missing idx in
  let non_nans := take non_nan_idx items in
  let non_nans := if ascending then non_nans else reverse non_nans in
  let non_nan_idx := if ascending then non_nan_idx else reverse non_nan_idx in
  p ← argsort non_nans;
  let indexer := take p non_nan_idx in
  let indexer := if ascending then indexer else reverse indexer in
  mret (indexer ++ nan_idx).

(** [r[label]] *)
Fixpoint record_get (r : record) (label : string) : option cell :=
  match r with
  | [] => None
  | (l, c) :: r' => if String.eqb label l then Some c else record_get r' label
  end.

(** [df[by]]: the column under a label, which every row must have. *)
Fixpoint column (df : DataFrame) (by_ : string) : outcome (list cell) :=
  match df with
  | [] => Ok []
  | r :: df' =>
      match record_get r by_ with
      | Some c => cons c <$> column df' by_
      | None => Raise KeyError
      end
  end.

(** [lambda x: x.str.lower()] on a column of text.  What the [.str] accessor
    does with a column that holds other values is not modelled. *)
Definition str_lower (x : list cell) : outcome (list cell) :=
  if forallb is_str x
  then Ok (map (fun c => match c with CStr s => CStr (lower s) | _ => c end) x)
  else Unmodelled.

(** [df.sort_values(by=by_, key=key, ascending=ascending)] *)
Definition sort_values `{Argsort} (df : DataFrame) (by_ : string)
    (key : option (list cell -> outcome (list cell))) (ascending : bool)
  : outcome DataFrame :=
  k ← column df by_;
  k ← match key with Some f => f k | None => Ok k end;
  indexer ← nargsort k ascending;
  mret (take indexer df).

(** Lines 141-149 of [main]. *)
Definition apply_sort `{Argsort} (sort_column sort_order : string)
    (filtered_df : DataFrame) : outcome DataFrame :=
  let sort_key := if String.eqb sort_column "Name" then Some str_lower else None in
  sort_values filtered_df sort_column sort_key (String.eqb sort_order "Ascending").

(** ** Fetcher: [fetch_chain_data] behind [st.cache_data] *)

(** The arguments of a fetch: [(include_evm, include_svm, only_testnets)]. *)
Definition FetchParameters : Type := bool * bool * bool.

Definition url : string := "https://api.skip.build/v2/info/chains".

(** [str(b).lower()] *)
Definition bool_str (b : bool) : string := if b then "True" else "False".

Definition params (p : FetchParameters) : list (string * string) :=
  let '(include_evm, include_svm, only_testnets) := p in
  [ ("include_evm", lower (bool_str include_evm));
    ("include_svm", lower (bool_str include_svm));
    ("only_testnets", lower (bool_str only_testnets)) ].

(** What [requests.get] does with a request: it raises a
    [RequestException] (no connection, timeout, ...) or returns a response. *)
Inductive body : Type :=
  | Json (v : pyval)
  | NotJson (why : string).

Record response : Type := {
  status_code : nat;
  http_error : string;   (* the text of the HTTPError [raise_for_status] raises *)
  content : body
}.

Inductive reply : Type :=
  | RequestException (why : string)
  | Response (r : response).

Definition network : Type := string -> list (string * string) -> reply.

(** What the page shows. *)
Inductive element : Type :=
  | st_title (text : string)
  | st_write (text : string)
  | st_error (text : string)
  | st_unexpected (e : exn)   (* [st.error(f"An unexpected error occurred: {e}")] *)
  | st_warning (text : string)
  | st_subheader (text : string)
  | st_table (df : DataFrame).  (* the sorted frame, rendered as a table *)

(** The body of [fetch_chain_data]: the value it returns and the elements it
    shows.  [raise_for_status] raises for the statuses 400 to 599;
    [response.json()] raises [requests.JSONDecodeError], a
    [RequestException], on a body that is not JSON. *)
Definition fetch_chain_data (net : network) (p : FetchParameters) : pyval * list element :=
  let failed := fun e : string =>
    (PNone, [st_error ("Error fetching data from API: " +:+ e)]) in
  match net url (params p) with
  | RequestException e => failed e
  | Response r =>
      if (400 <=? status_code r)%nat && (status_code r <? 600)%nat
      then failed (http_error r)
      else match content r with
           | Json data => (data, [])
           | NotJson e => failed e
           end
  end.

(** [ttl=timedelta(hours=1)], in seconds. *)
Definition ttl : nat := 3600.

(** [st.cache_data] keeps, per argument tuple, the time of the call, the
    value returned and the elements shown (which it shows again on a hit). *)
Abbreviation cache_data := (gmap FetchParameters (nat * (pyval * list element))).

Record world : Type := {
  cache : cache_data;
  sent : list (list (string * string));   (* the requests put on the network *)
  page : list element
}.

(** The entry stored for [p], if there is one and it is less than [ttl]
    seconds old. *)
Definition fresh (now : nat) (c : cache_data) (p : FetchParameters)
  : option (pyval * list element) :=
  match c !! p with
  | Some (t, r) => if (now <? t + ttl)%nat then Some r else None
  | None => None
  end.

(** A call of the decorated [fetch_chain_data] at time [now]. *)
Definition cached_fetch_chain_data (net : network) (now : nat)
    (p : FetchParameters) (w : world) : pyval * world :=
  match fresh now (cache w) p with
  | Some (v, shown) =>
      (v, {| cache := cache w; sent := sent w; page := page w ++ shown |})
  | None =>
      let '(v, shown) := fetch_chain_data net p in
      (v, {| cache := <[p := (now, (v, shown))]> (cache w);
             sent := sent w ++ [params p];
             page := page w ++ shown |})
  end.

(** ** Renderer: [generate_html_table] *)

(** The double quote around the values of the attributes. *)
Definition dq : string := String (ascii_of_nat 34) EmptyString.

(** [for x in xs: html = body(html, x)] *)
Fixpoint for_each {A} (body : string -> A -> outcome string) (xs : list A)
    (html : string) : outcome string :=
  match xs with
  | [] => Ok html
  | x :: xs' => html ← body html x; for_each body xs' html
  end.

(** [row[col]] for a column of the frame.  A row that [iterrows] yields has
    a cell under every column; a record without one stands for no row. *)
Definition row_getitem (row : record) (col : string) : outcome cell :=
  match record_get row col with
  | Some c => Ok c
  | None => Unmodelled
  end.

(** [x != 'N/A'] *)
Definition is_not_NA (x : cell) : bool :=
  match x with
  | CStr s => negb (String.eqb s "N/A")
  | _ => true
  end.

(** Lines 80-83: the markup of one cell; [{x}] in an f-string is [str(x)]. *)
Definition cell_html (col : string) (x : cell) : string :=
  if String.eqb col "Logo URI" && is_not_NA x
  then "<td><img src=" +:+ dq +:+ py_str x +:+ dq +:+ " width=" +:+ dq +:+ "50" +:+ dq +:+ "></td>"
  else "<td>" +:+ py_str x +:+ "</td>".

(** [generate_html_table(df)].  A frame here is the list of its rows, so
    [df.columns] is passed beside it: the frames [main] renders have the
    eight columns of [chain_info], also when the search has left no row. *)
Definition generate_html_table (columns : list string) (df : DataFrame) : outcome string :=
  let html := "<table style=" +:+ dq +:+ "width:100%" +:+ dq +:+ "><tr>" in
  html ← for_each (fun html col => Ok (html +:+ "<th>" +:+ col +:+ "</th>")) columns html;
  let html := html +:+ "</tr>" in
  html ← for_each (fun html row =>
            let html := html +:+ "<tr>" in
            html ← for_each (fun html col =>
                      x ← row_getitem row col;
                      Ok (html +:+ cell_html col x)) columns html;
            Ok (html +:+ "</tr>")) df html;
  Ok (html +:+ "</table>").

(** ** Orchestrator: [main] *)

(** What the widgets of the page return in a run: the three toggles, the
    search box, and the sort column and order, which the user picks among
    the columns of the table and among "Ascending" and "Descending". *)
Record inputs : Type := {
  include_evm : bool;
  include_svm : bool;
  only_testnets : bool;
  search_term : string;
  sort_column : string;
  sort_order : string
}.

(** [st.title], [st.write], ...: the elements are added to the page. *)
Definition show (es : list element) (w : world) : world :=
  {| cache := cache w; sent := sent w; page := page w ++ es |}.

(** The [try] block of [main]. *)
Definition main_body `{Argsort} (net : network) (now : nat) (i : inputs) (w : world)
  : outcome unit * world :=
  let w := show [ st_title "🔗 Chain ID Glossary";
                  st_write "Explore and search through blockchain network data from Skip Go API." ] w in
  let '(raw_data, w) :=
    cached_fetch_chain_data net now (include_evm i, include_svm i, only_testnets i) w in
  match process_chain_data raw_data with
  | Ok df =>
      if df_empty df
      then (Ok (), show [st_warning "No data available. Please try again later."] w)
      else
        match (filtered_df ← sort_values df "Name" None true;
               filtered_df ← apply_search (search_term i) filtered_df;
               apply_sort (sort_column i) (sort_order i) filtered_df) with
        | Ok sorted_df =>
            (Ok (), show [st_subheader "Chain Data Table"; st_table sorted_df] w)
        | Raise e => (Raise e, w)
        | Unmodelled => (Unmodelled, w)
        end
  | Raise e => (Raise e, w)
  | Unmodelled => (Unmodelled, w)
  end.

(** [main]: the [try] block under [except Exception]. *)
Definition main `{Argsort} (net : network) (now : nat) (i : inputs) (w : world)
  : outcome unit * world :=
  match main_body net now i w with
  | (Raise e, w') => (Ok (), show [st_unexpected e] w')
  | r => r
  end.

(** * Vocabulary of the properties *)

(** ** Normalised records *)

(** The fields copied from the raw entry as they are: column label, key on
    the wire, default. *)
Definition passed_through : list (string * string * pyval) :=
  [ ("Logo URI", "logo_uri", NA);
    ("Chain ID", "chain_id", NA);
    ("PFM Enabled", "pfm_enabled", NA);
    ("Chain Type", "chain_type", NA);
    ("Is Testnet", "is_testnet", NA);
    ("Pretty Name", "pretty_name", NA);
    ("Bech32 Prefix", "bech32_prefix", PStr "") ].

(** What a record of the table holds for the raw entry [d]. *)
Definition record_of (d : dict) (r : record) : Prop :=
  map fst r = chain_columns
  /\ (forall label key default, (label, key, default) ∈ passed_through ->
        exists c, record_get r label = Some c
                  /\ to_cell (dict_get_default d key default) = Ok c)
  /\ (exists s, dict_get_default d "chain_name" NA = PStr s
                /\ record_get r "Name" = Some (CStr (lower s)))
  /\ (dict_get d "chain_name" = None -> record_get r "Name" = Some (CStr "n/a")).

(** An entry the table is modelled for: a mapping whose [chain_name], if
    present, is a string, and whose other fields hold null, a boolean or a
    string. *)
Definition tabular (entry : pyval) : Prop :=
  exists d, entry = PDict d
    /\ (exists s, dict_get_default d "chain_name" NA = PStr s)
    /\ (forall label key default, (label, key, default) ∈ passed_through ->
          exists c, to_cell (dict_get_default d key default) = Ok c).

(** ** Literal search *)

(** [s.startswith(q)] and [q in s]: [q] occurs in [s] as it is written. *)
Fixpoint starts_with (q s : string) : bool :=
  match q, s with
  | EmptyString, _ => true
  | String _ _, EmptyString => false
  | String a q', String b s' => Ascii.eqb a b && starts_with q' s'
  end.

Fixpoint str_contains (q s : string) : bool :=
  starts_with q s ||
  match s with
  | EmptyString => false
  | String _ s' => str_contains q s'
  end.



(** A term none of whose characters is pattern syntax. *)
Definition plain (q : string) : bool :=
  forallb (fun c => negb (special c)) (list_ascii_of_string q).

(** The pattern such a term compiles to. *)
Fixpoint literals (q : string) : list atom :=
  match q with
  | EmptyString => []
  | String c q' => Lit c :: literals q'
  end.

(** ** Sort keys, and a ranking routine *)

(** The keys [apply_sort] ranks: the column, lowercased for Name. *)
Definition sort_keys (sort_column : string) (df : DataFrame) : outcome (list cell) :=
  k ← column df sort_column;
  if String.eqb sort_column "Name" then str_lower k else Ok k.

(** A total order on cells that agrees with Python's on an orderable column
    (null first, then booleans, then strings). *)
Definition key_leb (a b : cell) : bool :=
  match a, b with
  | CStr s, CStr t => String.leb s t
  | CBool x, CBool y => implb x y
  | CNone, _ => true
  | CBool _, CStr _ => true
  | _, _ => false
  end.

(** Positions paired with their keys, compared by key. *)
Definition by_key : relation (nat * cell) :=
  fun x y => key_leb (snd x) (snd y) = true.

#[global] Instance by_key_dec (x y : nat * cell) : Decision (by_key x y) :=
  decide (key_leb (snd x) (snd y) = true).

(** One routine that meets the contract of [Argsort]: ranking by merge sort;
    a column of unlike values cannot be ranked.  It is not numpy's routine,
    and among equal keys the order it gives is its own.  It serves to run
    examples whose keys are distinct, where every routine that meets the
    contract gives the same ranking. *)
Definition merge_argsort (keys : list cell) : outcome (list nat) :=
  if orderable keys || (length keys <=? 1)%nat
  then Ok (merge_sort by_key (zip (seq 0 (length keys)) keys)).*1
  else Raise TypeError.

(** ** Failed requests *)

(** The replies on which the fetcher gives up: no response at all, or a
    response with a status from 400 to 599. *)
Definition failed (r : reply) : Prop :=
  match r with
  | RequestException _ => True
  | Response r => 400 <= status_code r < 600
  end.

(** The cause of a failure, as the exception describes it: [str(e)]. *)
Definition cause (r : reply) : string :=
  match r with
  | RequestException why => why
  | Response r => http_error r
  end.

(** ** Sample data *)

(** One entry, with two of the eight keys. *)
Definition scenario1 : pyval :=
  PDict [("chains",
          PList [PDict [("chain_name", PStr "Osmosis");
                        ("chain_id", PStr "osmosis-1")]])].

(** One entry, without [chain_name]. *)
Definition no_chain_name : pyval :=
  PDict [("chains", PList [PDict [("chain_id", PStr "osmosis-1")]])].

Definition osmosis : record :=
  [ ("Logo URI", CStr "N/A"); ("Name", CStr "osmosis");
    ("Chain ID", CStr "osmosis-1"); ("PFM Enabled", CBool true);
    ("Chain Type", CStr "cosmos"); ("Is Testnet", CBool false);
    ("Pretty Name", CStr "Osmosis"); ("Bech32 Prefix", CStr "osmo") ].

Definition cosmoshub : record :=
  [ ("Logo URI", CStr "N/A"); ("Name", CStr "cosmoshub");
    ("Chain ID", CStr "cosmoshub-4"); ("PFM Enabled", CBool true);
    ("Chain Type", CStr "cosmos"); ("Is Testnet", CBool false);
    ("Pretty Name", CStr "Cosmos Hub"); ("Bech32 Prefix", CStr "cosmos") ].

(** Three records with distinct chain ids. *)
Definition three_chains : DataFrame :=
  [ [("Name", CStr "b"); ("Chain ID", CStr "b-2")];
    [("Name", CStr "a"); ("Chain ID", CStr "a-1")];
    [("Name", CStr "c"); ("Chain ID", CStr "c-3")] ].

(** A first run: nothing cached, nothing sent, an empty page. *)
Definition empty_world : world := {| cache := ∅; sent := []; page := [] |}.

(** A directory that answers every request with [scenario1], and one that
    cannot be reached. *)
Definition osmosis_only : network := fun _ _ =>
  Response {| status_code := 200; http_error := ""; content := Json scenario1 |}.

Definition offline : network := fun _ _ => RequestException "connection refused".

Definition default_inputs : inputs :=
  {| include_evm := true; include_svm := true; only_testnets := false;
     search_term := ""; sort_column := "Name"; sort_order := "Ascending" |}.

(** ** Answers of the directory *)

(** The directory answers the request for [p] with the JSON document
    [data], under a status that [raise_for_status] lets pass. *)
Definition answers (net : network) (p : FetchParameters) (data : pyval) : Prop :=
  exists r, net url (params p) = Response r
            /\ ~ (400 <= status_code r < 600)
            /\ content r = Json data.

(** ** Runs of [main] *)



(** The order asked for with the radio button. *)
Definition in_order (sort_order : string) : relation cell :=
  if String.eqb sort_order "Ascending" then cell_le else flip cell_le.

(** What [st.cache_data] can have stored for [fetch_chain_data]: a value
    with nothing shown, or [None] with one error message. *)
Definition cache_sound (c : cache_data) : Prop :=
  forall p t v shown, c !! p = Some (t, (v, shown)) ->
    shown = [] \/ (v = PNone /\ exists text, shown = [st_error text]).

Definition no_data : element :=
  st_warning "No data available. Please try again later.".

Definition heading : list element :=
  [ st_title "🔗 Chain ID Glossary";
    st_write "Explore and search through blockchain network data from Skip Go API." ].

(** Lines 118-149 of [main]: the default sort, the search and the sort. *)
Definition pipeline `{Argsort} (i : inputs) (df : DataFrame) : outcome DataFrame :=
  filtered_df ← sort_values df "Name" None true;
  filtered_df ← apply_search (search_term i) filtered_df;
  apply_sort (sort_column i) (sort_order i) filtered_df.

(** The parameters a run fetches with. *)
Definition toggles (i : inputs) : FetchParameters :=
  (include_evm i, include_svm i, only_testnets i).

(** ** Markup of the table *)

(** The texts [f x], for the [x] of a list in turn, one after the other. *)
Definition join {A} (f : A -> string) (l : list A) : string :=
  fold_right (fun x s => f x +:+ s) "" l.

(** The markup read off the table: a row of headers, then a row per
    record, each with a cell per column. *)
Definition th (col : string) : string := "<th>" +:+ col +:+ "</th>".

Definition td (row : record) (col : string) : string :=
  cell_html col (default CNone (record_get row col)).

Definition tr (columns : list string) (row : record) : string :=
  "<tr>" +:+ join (td row) columns +:+ "</tr>".

Definition markup (columns : list string) (df : DataFrame) : string :=
  "<table style=" +:+ dq +:+ "width:100%" +:+ dq +:+ "><tr>"
  +:+ join th columns +:+ "</tr>" +:+ join (tr columns) df +:+ "</table>".

(** Every record has a cell under every column. *)
Definition complete (columns : list string) (df : DataFrame) : Prop :=
  Forall (fun row => Forall (fun col => is_Some (record_get row col)) columns) df.

(** [s] occurs in [t]. *)
Definition within (s t : string) : Prop := exists pre post, t = pre +:+ s +:+ post.

(** ** Missing keys *)

(** The record holds null under the column. *)
Definition is_null (col : string) (r : record) : bool :=
  match record_get r col with
  | Some c => cell_isna c
  | None => false
  end.

(** The keys that are there. *)
Definition present (keys : list cell) : list cell :=
  List.filter (fun c => negb (cell_isna c)) keys.

(** * Properties *)

(** Runs [tac] on the goal for each row of [passed_through], where [Hin]
    says that the row is in the table. *)
Ltac each_field Hin tac :=
  unfold passed_through in Hin;
  repeat (apply elem_of_cons in Hin as [[= -> -> ->]|Hin]; [tac|]);
  by apply elem_of_nil in Hin.

(** ** The outcome monad *)

Lemma mapM_Ok {A B} (f : A -> outcome B) (l : list A) (k : list B) :
  mapM f l = Ok k <-> Forall2 (fun x y => f x = Ok y) l k.
Proof.
  revert k. induction l as [|x l IH]; intros k; simpl.
  - split.
    + intros [= <-]. constructor.
    + intros Hk. apply Forall2_nil_inv_l in Hk. by subst.
  - split.
    + destruct (f x) as [y| |] eqn:Hx; simpl; try discriminate.
      destruct (mapM f l) as [k'| |] eqn:Hl; simpl; try discriminate.
      intros [= <-]. constructor; [done|]. by apply IH.
    + intros Hk. apply Forall2_cons_inv_l in Hk as (y & k' & Hx & Hl & ->).
      apply IH in Hl. rewrite Hx. simpl. rewrite Hl. done.
Qed.

Lemma mapM_raise {A B} (f : A -> outcome B) (good : list A) (x : A) (rest : list A) e :
  Forall (fun a => exists b, f a = Ok b) good ->
  f x = Raise e ->
  mapM f (good ++ x :: rest) = Raise e.
Proof.
  intros Hgood Hx. induction Hgood as [|a good [b Ha] _ IH]; simpl.
  - by rewrite Hx.
  - rewrite Ha. simpl. by rewrite IH.
Qed.

(** ** Normaliser *)

Lemma chain_info_dict (d : dict) :
  chain_info (PDict d) =
  (name ← py_lower (dict_get_default d "chain_name" NA);
   mret [ ("Logo URI", dict_get_default d "logo_uri" NA);
          ("Name", name);
          ("Chain ID", dict_get_default d "chain_id" NA);
          ("PFM Enabled", dict_get_default d "pfm_enabled" NA);
          ("Chain Type", dict_get_default d "chain_type" NA);
          ("Is Testnet", dict_get_default d "is_testnet" NA);
          ("Pretty Name", dict_get_default d "pretty_name" NA);
          ("Bech32 Prefix", dict_get_default d "bech32_prefix" (PStr "")) ]).
Proof. unfold chain_info, py_get. simpl. by destruct (py_lower _). Qed.

Lemma chain_info_Ok (chain : pyval) (info : dict) :
  chain_info chain = Ok info ->
  exists d s, chain = PDict d
    /\ dict_get_default d "chain_name" NA = PStr s
    /\ info = [ ("Logo URI", dict_get_default d "logo_uri" NA);
                ("Name", PStr (lower s));
                ("Chain ID", dict_get_default d "chain_id" NA);
                ("PFM Enabled", dict_get_default d "pfm_enabled" NA);
                ("Chain Type", dict_get_default d "chain_type" NA);
                ("Is Testnet", dict_get_default d "is_testnet" NA);
                ("Pretty Name", dict_get_default d "pretty_name" NA);
                ("Bech32 Prefix", dict_get_default d "bech32_prefix" (PStr "")) ].
Proof.
  destruct chain as [| | | | |d]; try discriminate.
  rewrite chain_info_dict.
  destruct (dict_get_default d "chain_name" NA) as [| | |s| |] eqn:Hn;
    try discriminate.
  simpl. intros [= <-]. by exists d, s.
Qed.

Lemma to_record_of (d : dict) (info : dict) (r : record) :
  chain_info (PDict d) = Ok info -> to_record info = Ok r -> record_of d r.
Proof.
  intros Hinfo Hr.
  apply chain_info_Ok in Hinfo as (d' & s & [= <-] & Hs & ->).
  unfold to_record in Hr. apply mapM_Ok in Hr.
  repeat match goal with
  | H : Forall2 _ (_ :: _) _ |- _ =>
      apply Forall2_cons_inv_l in H as ([? ?] & ? & ? & H & ->)
  | H : Forall2 _ [] _ |- _ => apply Forall2_nil_inv_l in H as ->
  end.
  cbn [fst snd] in *.
  repeat match goal with
  | H : to_cell ?v ≫= _ = Ok _ |- _ =>
      let E := fresh "E" in
      destruct (to_cell v) eqn:E; simpl in H; [|discriminate..];
      injection H as <- <-
  end.
  unfold record_of. repeat split.
  - intros label key default Hin.
    each_field Hin ltac:(eexists; split; [reflexivity|eassumption]).
  - exists s. split; [done|]. by simplify_eq/=.
  - intros Habs. unfold dict_get_default in Hs. rewrite Habs in Hs.
    injection Hs as <-. by simplify_eq/=.
Qed.

(** C1.  For a mapping with the [chains] key, every record that
    [process_chain_data] produces has exactly the eight columns, each of the
    seven fields copied from the entry holds the source value or its default
    ("N/A", the empty string for Bech32 Prefix), and Name holds the lowercased
    source value; where the entry has no [chain_name] the Name it holds is
    "n/a", the lowercased default, and not the "N/A" of the defaults table. *)
Theorem process_chain_data_fields (d : dict) (df : DataFrame) :
  py_in "chains" (PDict d) = true ->
  process_chain_data (PDict d) = Ok df ->
  exists entries,
    py_getitem (PDict d) "chains" ≫= py_iter = Ok entries
    /\ Forall2 (fun entry r => exists e, entry = PDict e /\ record_of e r) entries df.
Proof.
  intros Hin. unfold process_chain_data. rewrite Hin.
  assert (truthy (PDict d) = true) as ->.
  { destruct d; [discriminate Hin|done]. }
  simpl negb. simpl orb. cbv iota.
  destruct (py_getitem (PDict d) "chains" ≫= py_iter) as [entries| |] eqn:He;
    try discriminate.
  simpl. destruct (mapM chain_info entries) as [chains| |] eqn:Hc;
    try discriminate.
  simpl. intros Hdf. exists entries. split; [done|].
  unfold pd_DataFrame in Hdf. apply mapM_Ok in Hdf.
  apply (proj1 (mapM_Ok _ _ _)) in Hc.
  clear He. revert df Hdf.
  induction Hc as [|entry info entries chains Hi _ IH]; intros df Hdf.
  - apply Forall2_nil_inv_l in Hdf as ->. constructor.
  - apply Forall2_cons_inv_l in Hdf as (r & df' & Hr & Hdf & ->).
    constructor; [|by apply IH].
    destruct (chain_info_Ok _ _ Hi) as (e & s & -> & _ & _).
    exists e. split; [done|]. by eapply to_record_of.
Qed.

Example process_scenario1 :
  process_chain_data scenario1 =
  Ok [[ ("Logo URI", CStr "N/A"); ("Name", CStr "osmosis");
        ("Chain ID", CStr "osmosis-1"); ("PFM Enabled", CStr "N/A");
        ("Chain Type", CStr "N/A"); ("Is Testnet", CStr "N/A");
        ("Pretty Name", CStr "N/A"); ("Bech32 Prefix", CStr "") ]].
Proof. reflexivity. Qed.

Lemma tabular_record (entry : pyval) :
  tabular entry ->
  exists info r, chain_info entry = Ok info /\ to_record info = Ok r.
Proof.
  intros (d & -> & [s Hs] & Hcells).
  assert (Forall (fun t => exists c,
            to_cell (dict_get_default d (snd (fst t)) (snd t)) = Ok c)
            passed_through) as HF.
  { apply Forall_forall. intros [[label key] default] Hin. eauto. }
  unfold passed_through in HF.
  repeat (apply Forall_cons in HF as [[? ?] HF]). cbn [fst snd] in *.
  rewrite chain_info_dict, Hs. eexists _, _. split; [reflexivity|].
  unfold to_record. cbn [mapM fst snd].
  repeat match goal with E : to_cell _ = Ok _ |- _ => rewrite E; clear E end.
  reflexivity.
Qed.

(** X1.  On such entries the normaliser returns, with one record per entry. *)
Lemma process_chain_data_returns (entries : list pyval) :
  Forall tabular entries ->
  exists df, process_chain_data (PDict [("chains", PList entries)]) = Ok df
             /\ length df = length entries.
Proof.
  intros Hentries.
  assert (exists chains df,
            Forall2 (fun x y => chain_info x = Ok y) entries chains
            /\ Forall2 (fun x y => to_record x = Ok y) chains df)
    as (chains & df & Hchains & Hdf).
  { induction Hentries as [|entry entries Hentry _ (chains & df & Hc & Hd)].
    - exists [], []. split; constructor.
    - destruct (tabular_record _ Hentry) as (info & r & Hinfo & Hr).
      exists (info :: chains), (r :: df). split; by constructor. }
  exists df. split.
  - unfold process_chain_data. simpl.
    apply mapM_Ok in Hchains. rewrite Hchains. simpl.
    unfold pd_DataFrame. by apply mapM_Ok.
  - apply Forall2_length in Hchains, Hdf. congruence.
Qed.

Lemma process_chain_data_returns_witness :
  exists df, process_chain_data scenario1 = Ok df /\ length df = 1.
Proof.
  apply (process_chain_data_returns
           [PDict [("chain_name", PStr "Osmosis"); ("chain_id", PStr "osmosis-1")]]).
  repeat constructor. eexists. split; [done|]. split; [by eexists|].
  intros label key default Hin. each_field Hin ltac:(by eexists).
Defined.

Lemma process_chain_data_fields_witness :
  exists entries,
    py_getitem no_chain_name "chains" ≫= py_iter = Ok entries
    /\ Forall2 (fun entry r => exists e, entry = PDict e /\ record_of e r) entries
         [[ ("Logo URI", CStr "N/A"); ("Name", CStr "n/a");
            ("Chain ID", CStr "osmosis-1"); ("PFM Enabled", CStr "N/A");
            ("Chain Type", CStr "N/A"); ("Is Testnet", CStr "N/A");
            ("Pretty Name", CStr "N/A"); ("Bech32 Prefix", CStr "") ]].
Proof.
  apply (process_chain_data_fields
           [("chains", PList [PDict [("chain_id", PStr "osmosis-1")]])]);
    reflexivity.
Defined.

Lemma dict_get_default_None (d : dict) (k : string) (default : pyval) :
  dict_get d k = None -> dict_get_default d k default = default.
Proof. unfold dict_get_default. by intros ->. Qed.

Lemma dict_get_default_Some (d : dict) (k : string) (default v : pyval) :
  dict_get d k = Some v -> dict_get_default d k default = v.
Proof. unfold dict_get_default. by intros ->. Qed.

(** C4.  An entry without [chain_name] is given the Name "n/a": the default
    "N/A" is lowercased together with the source values. *)
Theorem name_without_chain_name (d : dict) :
  dict_get d "chain_name" = None ->
  exists info, chain_info (PDict d) = Ok info
               /\ dict_get info "Name" = Some (PStr "n/a").
Proof.
  intros Habs. rewrite chain_info_dict.
  rewrite (dict_get_default_None d "chain_name" NA Habs).
  simpl. eexists. split; reflexivity.
Qed.

Lemma name_without_chain_name_witness :
  exists info, chain_info (PDict [("chain_id", PStr "osmosis-1")]) = Ok info
               /\ dict_get info "Name" = Some (PStr "n/a").
Proof.
  apply (name_without_chain_name [("chain_id", PStr "osmosis-1")]).
  reflexivity.
Defined.

Lemma name_with_chain_name (d : dict) (s : string) :
  dict_get d "chain_name" = Some (PStr s) ->
  exists info, chain_info (PDict d) = Ok info
               /\ dict_get info "Name" = Some (PStr (lower s)).
Proof.
  intros Hs. rewrite chain_info_dict.
  rewrite (dict_get_default_Some d "chain_name" NA _ Hs).
  simpl. eexists. split; reflexivity.
Qed.

(** C5.  Null, a value that is not a mapping, and a mapping without the
    [chains] key all give the empty frame; nothing is raised. *)
Theorem process_chain_data_no_data (data : pyval) :
  data = PNone \/ is_dict data = false \/ py_in "chains" data = false ->
  process_chain_data data = Ok empty_frame.
Proof.
  unfold process_chain_data.
  intros [-> | [Hd | Hk]]; [done | rewrite Hd | rewrite Hk].
  - by rewrite orb_true_r.
  - by rewrite orb_true_r.
Qed.

Lemma process_chain_data_no_data_witness :
  process_chain_data (PDict [("error", PStr "not found")]) = Ok empty_frame.
Proof.
  apply process_chain_data_no_data. right. right. reflexivity.
Defined.

(** C10.  An entry whose [chain_name] is present and is not a string makes
    [process_chain_data] raise, once the entries before it are normalised;
    each of the other seven fields is copied whatever value it holds. *)
Theorem chain_name_not_text_raises (good : list pyval) (d : dict) (v : pyval)
    (rest : list pyval) :
  Forall (fun entry => exists info, chain_info entry = Ok info) good ->
  dict_get d "chain_name" = Some v ->
  (forall s, v <> PStr s) ->
  process_chain_data (PDict [("chains", PList (good ++ PDict d :: rest))])
    = Raise AttributeError
  /\ (forall (e : dict) (s : string) label key default,
        dict_get_default e "chain_name" NA = PStr s ->
        (label, key, default) ∈ passed_through ->
        exists info, chain_info (PDict e) = Ok info
                     /\ dict_get info label = Some (dict_get_default e key default)).
Proof.
  intros Hgood Hv Hnot. split.
  - unfold process_chain_data. simpl.
    erewrite mapM_raise; [done|done|].
    rewrite chain_info_dict.
    rewrite (dict_get_default_Some d "chain_name" NA _ Hv).
    destruct v; try done. by destruct (Hnot s).
  - intros e s label key default Hs Hin.
    rewrite chain_info_dict, Hs. simpl. eexists. split; [done|].
    each_field Hin ltac:(reflexivity).
Qed.

Lemma chain_name_not_text_raises_witness :
  process_chain_data
    (PDict [("chains", PList ([] ++ PDict [("chain_name", PNone)] :: []))])
    = Raise AttributeError
  /\ (forall (e : dict) (s : string) label key default,
        dict_get_default e "chain_name" NA = PStr s ->
        (label, key, default) ∈ passed_through ->
        exists info, chain_info (PDict e) = Ok info
                     /\ dict_get info label = Some (dict_get_default e key default)).
Proof.
  apply (chain_name_not_text_raises [] [("chain_name", PNone)] PNone []).
  - constructor.
  - reflexivity.
  - discriminate.
Defined.

(** ** Filterer *)








Lemma df_filter_fixed (g : record -> outcome bool) (df kept : DataFrame) :
  df_filter g df = Ok kept -> df_filter g kept = Ok kept.
Proof.
  revert kept. induction df as [|r df IH]; intros kept; simpl.
  - by intros [= <-].
  - destruct (g r) as [b| |] eqn:Hr; simpl; [|done..].
    destruct (df_filter g df) as [rest| |]; simpl; [|done..].
    intros [= <-]. destruct b; [|by apply IH].
    simpl. rewrite Hr. simpl. by rewrite (IH rest).
Qed.


(** C8.  With the empty search term the frame is returned as it is. *)
Theorem apply_search_empty (df : DataFrame) :
  apply_search "" df = Ok df.
Proof. unfold apply_search. simpl. reflexivity. Qed.

Lemma apply_search_fixed (q : string) (df kept : DataFrame) :
  apply_search q df = Ok kept -> apply_search q kept = Ok kept.
Proof.
  unfold apply_search. destruct (truthy (PStr q)); [|done].
  apply df_filter_fixed.
Qed.

(** C9.  Searching twice with the same term gives what searching once
    gives: the same records in the same order, or the same failure. *)
Theorem apply_search_idempotent (q : string) (df : DataFrame) :
  apply_search q df ≫= apply_search q = apply_search q df.
Proof.
  destruct (apply_search q df) as [kept| |] eqn:Hkept; simpl; [|done..].
  by apply apply_search_fixed in Hkept.
Qed.



Example search_hub :
  apply_search "HUB" [osmosis; cosmoshub] = Ok [cosmoshub].
Proof. reflexivity. Qed.

(** The term "osmo" is found in both records: it occurs in "osmosis" and,
    after the first letter, in "cosmos". *)
Example search_osmo :
  apply_search "osmo" [osmosis; cosmoshub] = Ok [osmosis; cosmoshub]
  /\ str_contains "osmo" (lower "Cosmos Hub") = true.
Proof. split; reflexivity. Qed.


(** ** Sorter *)

(** *** The order on keys *)

Lemma ascii_compare_lt (a b : ascii) :
  Ascii.compare a b = Lt <-> (N_of_ascii a < N_of_ascii b)%N.
Proof. unfold Ascii.compare. apply N.compare_lt_iff. Qed.

Lemma ascii_compare_gt (a b : ascii) :
  Ascii.compare a b = Gt <-> (N_of_ascii b < N_of_ascii a)%N.
Proof. unfold Ascii.compare. apply N.compare_gt_iff. Qed.

Lemma ascii_compare_eq (a b : ascii) :
  Ascii.compare a b = Eq <-> N_of_ascii a = N_of_ascii b.
Proof. unfold Ascii.compare. apply N.compare_eq_iff. Qed.

Lemma string_leb_trans (s t u : string) :
  String.leb s t = true -> String.leb t u = true -> String.leb s u = true.
Proof.
  unfold String.leb. revert t u.
  induction s as [|a s IH]; intros [|b t] [|c u]; simpl; try done.
  destruct (Ascii.compare a b) eqn:Hab, (Ascii.compare b c) eqn:Hbc,
    (Ascii.compare a c) eqn:Hac; try done;
    try apply IH;
    rewrite ?ascii_compare_lt, ?ascii_compare_gt, ?ascii_compare_eq in *; lia.
Qed.

Lemma string_ltb_leb (s t : string) :
  String.ltb t s = false <-> String.leb s t = true.
Proof.
  unfold String.ltb, String.leb. rewrite (String.compare_antisym s t).
  by destruct (String.compare t s).
Qed.

Lemma cell_le_str (s t : string) :
  cell_le (CStr s) (CStr t) <-> String.leb s t = true.
Proof.
  unfold cell_le. simpl. rewrite <-string_ltb_leb. split; [by intros [=]|by intros ->].
Qed.

Lemma cell_le_bool (x y : bool) :
  cell_le (CBool x) (CBool y) <-> implb x y = true.
Proof. unfold cell_le. simpl. destruct x, y; simpl; split; done. Qed.

Lemma cell_le_kind (a b : cell) :
  cell_le a b ->
  (exists s t, a = CStr s /\ b = CStr t) \/ (exists x y, a = CBool x /\ b = CBool y).
Proof. unfold cell_le. destruct a, b; simpl; try done; eauto. Qed.

#[global] Instance cell_le_trans : Transitive cell_le.
Proof.
  intros a b c Hab Hbc.
  destruct (cell_le_kind _ _ Hab) as [(s & t & -> & ->)|(x & y & -> & ->)];
    destruct (cell_le_kind _ _ Hbc) as [(t' & u & [= <-] & ->)|(y' & z & [= <-] & ->)].
  - rewrite cell_le_str in *. eauto using string_leb_trans.
  - rewrite cell_le_bool in *. destruct x, y, z; done.
Qed.

#[global] Instance cell_le_antisym : AntiSymm (=) cell_le.
Proof.
  intros a b Hab Hba.
  destruct (cell_le_kind _ _ Hab) as [(s & t & -> & ->)|(x & y & -> & ->)].
  - rewrite cell_le_str in *. f_equal. by apply String.leb_antisym.
  - rewrite cell_le_bool in *. destruct x, y; done.
Qed.

(** *** Taking rows by position *)

Lemma take_cons_Some {A} (i : nat) (p : list nat) (l : list A) (x : A) :
  l !! i = Some x -> take (i :: p) l = x :: take p l.
Proof. unfold take. simpl. by intros ->. Qed.

Lemma take_cons_None {A} (i : nat) (p : list nat) (l : list A) :
  l !! i = None -> take (i :: p) l = take p l.
Proof. unfold take. simpl. by intros ->. Qed.

Section take.
Context {A : Type}.
Implicit Types (l k : list A) (p q idx : list nat).

Lemma take_seq_from l0 l :
  take (seq (length l0) (length l)) (l0 ++ l) = l.
Proof.
  revert l0. induction l as [|x l IH]; intros l0; [done|].
  change (seq (length l0) (length (x :: l)))
    with (length l0 :: seq (S (length l0)) (length l)).
  rewrite (take_cons_Some _ _ _ x) by by apply list_lookup_middle.
  f_equal. specialize (IH (l0 ++ [x])).
  rewrite length_app, <-app_assoc in IH. simpl in IH.
  by rewrite Nat.add_1_r in IH.
Qed.

Lemma take_all l : take (seq 0 (length l)) l = l.
Proof. apply (take_seq_from [] l). Qed.

Lemma take_perm p l : p ≡ₚ seq 0 (length l) -> take p l ≡ₚ l.
Proof.
  intros Hp. transitivity (take (seq 0 (length l)) l).
  - unfold take. by rewrite Hp.
  - by rewrite take_all.
Qed.

Lemma take_reverse p l : take (reverse p) l = reverse (take p l).
Proof.
  induction p as [|i p IH]; [done|].
  rewrite reverse_cons. unfold take in *. rewrite omap_app, IH. simpl.
  destruct (l !! i); simpl; [by rewrite reverse_cons|by rewrite app_nil_r].
Qed.

Lemma lookup_take idx l i :
  Forall (fun j => j < length l) idx ->
  take idx l !! i = idx !! i ≫= (l !!.).
Proof.
  intros Hidx. revert i. induction Hidx as [|j idx Hj _ IH]; intros i; [done|].
  apply lookup_lt_is_Some in Hj as [x Hx].
  rewrite (take_cons_Some _ _ _ _ Hx). destruct i as [|i]; simpl; [done|apply IH].
Qed.

Lemma take_take q idx l :
  Forall (fun j => j < length l) idx ->
  take (take q idx) l = take q (take idx l).
Proof.
  intros Hidx. induction q as [|i q IH]; [done|].
  pose proof (lookup_take idx l i Hidx) as Hi.
  destruct (idx !! i) as [j|] eqn:Hj; simpl in Hi.
  - rewrite (take_cons_Some _ _ idx j Hj).
    assert (j < length l) as Hlt.
    { rewrite Forall_forall in Hidx. apply Hidx.
      by eapply list_elem_of_lookup_2. }
    apply lookup_lt_is_Some in Hlt as [x Hx]. rewrite Hx in Hi.
    rewrite (take_cons_Some _ _ l x Hx), (take_cons_Some _ _ _ x Hi).
    by rewrite IH.
  - rewrite (take_cons_None _ _ idx Hj), (take_cons_None _ _ _ Hi). apply IH.
Qed.

Lemma take_inj p q l :
  NoDup l ->
  Forall (fun j => j < length l) p ->
  Forall (fun j => j < length l) q ->
  take p l = take q l -> p = q.
Proof.
  intros Hl Hp. revert q. induction Hp as [|i p Hi _ IH]; intros q Hq Heq.
  - destruct Hq as [|j q Hj _]; [done|].
    apply lookup_lt_is_Some in Hj as [y Hy].
    by rewrite (take_cons_Some _ _ _ _ Hy) in Heq.
  - apply lookup_lt_is_Some in Hi as [x Hx].
    rewrite (take_cons_Some _ _ _ _ Hx) in Heq.
    destruct Hq as [|j q Hj Hq]; [done|].
    apply lookup_lt_is_Some in Hj as [y Hy].
    rewrite (take_cons_Some _ _ _ _ Hy) in Heq.
    injection Heq as <- Heq. f_equal; [|by apply IH].
    by eapply NoDup_lookup.
Qed.

Lemma take_Forall2 {B} (P : A -> B -> Prop) p l (k : list B) :
  Forall2 P l k -> Forall2 P (take p l) (take p k).
Proof.
  intros Hlk. induction p as [|i p IH]; [constructor|].
  pose proof (proj1 (Forall2_lookup _ _ _) Hlk i) as Hi.
  destruct (l !! i) as [x|] eqn:Hx, (k !! i) as [y|] eqn:Hy; inversion Hi; subst.
  - rewrite (take_cons_Some _ _ _ _ Hx), (take_cons_Some _ _ _ _ Hy).
    by constructor.
  - by rewrite (take_cons_None _ _ _ Hx), (take_cons_None _ _ _ Hy).
Qed.

End take.

Lemma take_fmap {A B} (f : A -> B) (p : list nat) (l : list A) :
  take p (f <$> l) = f <$> take p l.
Proof.
  induction p as [|i p IH]; [done|].
  destruct (l !! i) as [x|] eqn:Hx.
  - rewrite (take_cons_Some _ _ l x Hx), (take_cons_Some _ _ _ (f x)).
    + by rewrite IH.
    + by rewrite list_lookup_fmap, Hx.
  - rewrite (take_cons_None _ _ l Hx), (take_cons_None _ _ (f <$> l)); [done|].
    by rewrite list_lookup_fmap, Hx.
Qed.

Lemma take_seq_self (p : list nat) (n : nat) :
  Forall (fun i => i < n) p -> take p (seq 0 n) = p.
Proof.
  induction 1 as [|i p Hi _ IH]; [done|].
  rewrite (take_cons_Some _ _ _ i) by by apply lookup_seq_lt. by rewrite IH.
Qed.

Lemma perm_seq_range (p : list nat) (n : nat) :
  p ≡ₚ seq 0 n -> Forall (fun i => i < n) p.
Proof.
  intros Hp. apply Forall_forall. intros i Hi. rewrite Hp in Hi.
  apply elem_of_seq in Hi. lia.
Qed.

(** *** Ranking a column without missing keys *)

Lemma filter_all {A} (f : A -> bool) (l : list A) :
  Forall (fun x => f x = true) l -> List.filter f l = l.
Proof. induction 1 as [|x l Hx _ IH]; simpl; [done|]. by rewrite Hx, IH. Qed.

Lemma filter_none {A} (f : A -> bool) (l : list A) :
  Forall (fun x => f x = false) l -> List.filter f l = [].
Proof. induction 1 as [|x l Hx _ IH]; simpl; [done|]. by rewrite Hx. Qed.

Lemma orderable_present (keys : list cell) :
  orderable keys = true -> Forall (fun c => cell_isna c = false) keys.
Proof.
  unfold orderable. rewrite orb_true_iff, !forallb_forall, Forall_forall.
  intros [H|H] c Hc; apply list_elem_of_In, H in Hc; by destruct c.
Qed.

Lemma orderable_reverse (keys : list cell) :
  orderable (reverse keys) = orderable keys.
Proof.
  unfold orderable. f_equal; apply eq_true_iff_eq;
    rewrite !forallb_forall; split; intros H c Hc; apply H;
    apply list_elem_of_In; apply list_elem_of_In in Hc;
    by apply elem_of_reverse.
Qed.

Lemma orderable_take (p : list nat) (keys : list cell) :
  orderable keys = true -> orderable (take p keys) = true.
Proof.
  unfold orderable. rewrite !orb_true_iff, !forallb_forall.
  intros [H|H]; [left|right]; intros c Hc; apply H;
    apply list_elem_of_In; apply list_elem_of_In in Hc;
    apply list_elem_of_omap in Hc as (i & _ & Hi);
    by eapply list_elem_of_lookup_2.
Qed.

Section sorter.
Context `{Argsort}.

Lemma nargsort_present (items : list cell) (ascending : bool) :
  Forall (fun c => cell_isna c = false) items ->
  nargsort items ascending =
  (p ← argsort (if ascending then items else reverse items);
   mret (if ascending then take p (seq 0 (length items))
         else reverse (take p (reverse (seq 0 (length items)))))).
Proof.
  intros Hitems. unfold nargsort.
  rewrite filter_all, filter_none, take_all.
  - destruct ascending; destruct (argsort _); simpl; by rewrite ?app_nil_r.
  - apply Forall_forall. intros i Hi. apply elem_of_seq in Hi.
    destruct (items !! i) as [c|] eqn:Hc; [|done].
    rewrite Forall_forall in Hitems. apply Hitems.
    by eapply list_elem_of_lookup_2.
  - apply Forall_forall. intros i Hi. apply elem_of_seq in Hi.
    destruct (lookup_lt_is_Some_2 items i) as [c Hc]; [lia|].
    rewrite Hc. rewrite Forall_forall in Hitems.
    apply negb_true_iff, Hitems. by eapply list_elem_of_lookup_2.
Qed.

(** The two rankings of an orderable column: [p] ranks the column, [q] ranks
    the reversed column. *)
Lemma nargsort_orderable (keys : list cell) :
  orderable keys = true ->
  exists p q,
    nargsort keys true = Ok p
    /\ nargsort keys false = Ok (reverse q)
    /\ p ≡ₚ seq 0 (length keys)
    /\ q ≡ₚ seq 0 (length keys)
    /\ Sorted cell_le (take p keys)
    /\ Sorted cell_le (take q keys).
Proof.
  intros Hord.
  destruct (argsort_sorts keys Hord) as (p & Hp & Hperm & Hsorted).
  destruct (argsort_sorts (reverse keys)) as (q & Hq & Hqperm & Hqsorted).
  { by rewrite orderable_reverse. }
  rewrite length_reverse in Hqperm.
  pose proof (perm_seq_range _ _ Hperm) as Hprange.
  exists p, (take q (reverse (seq 0 (length keys)))).
  rewrite !nargsort_present by by apply orderable_present.
  rewrite Hp, Hq. simpl. rewrite (take_seq_self p) by done.
  repeat split; try done.
  - rewrite take_perm; [by rewrite reverse_Permutation|].
    by rewrite length_reverse, length_seq.
  - rewrite take_take.
    + by rewrite take_reverse, take_all.
    + apply Forall_forall. intros i Hi. apply elem_of_reverse, elem_of_seq in Hi.
      lia.
Qed.

End sorter.

(** *** The keys a frame is ordered by *)

Lemma column_Ok (df : DataFrame) (by_ : string) (keys : list cell) :
  column df by_ = Ok keys <->
  Forall2 (fun r k => record_get r by_ = Some k) df keys.
Proof.
  revert keys. induction df as [|r df IH]; intros keys; simpl.
  - split.
    + intros [= <-]. constructor.
    + intros Hk. apply Forall2_nil_inv_l in Hk. by subst.
  - split.
    + destruct (record_get r by_) as [c|] eqn:Hc; [|done].
      destruct (column df by_) as [k| |] eqn:Hk; simpl; try done.
      intros [= <-]. constructor; [done|]. by apply IH.
    + intros Hk. apply Forall2_cons_inv_l in Hk as (c & k & Hc & Hk & ->).
      apply IH in Hk. by rewrite Hc, Hk.
Qed.

Lemma apply_sort_unfold `{Argsort} (sort_column sort_order : string) (df : DataFrame) :
  apply_sort sort_column sort_order df =
  (k ← sort_keys sort_column df;
   indexer ← nargsort k (String.eqb sort_order "Ascending");
   mret (take indexer df)).
Proof.
  unfold apply_sort, sort_values, sort_keys.
  destruct (column df sort_column); simpl; [|done..].
  by destruct (String.eqb sort_column "Name").
Qed.

Lemma str_lower_take (p : list nat) (k keys : list cell) :
  str_lower k = Ok keys -> str_lower (take p k) = Ok (take p keys).
Proof.
  unfold str_lower. destruct (forallb is_str k) eqn:Hk; [|done].
  intros [= <-].
  assert (forallb is_str (take p k) = true) as ->.
  { rewrite forallb_forall in *. intros c Hc. apply Hk.
    apply list_elem_of_In. apply list_elem_of_In in Hc.
    apply list_elem_of_omap in Hc as (i & _ & Hi).
    by eapply list_elem_of_lookup_2. }
  f_equal. symmetry. apply (take_fmap _ p k).
Qed.

Lemma sort_keys_take (sort_column : string) (p : list nat) (df : DataFrame)
    (keys : list cell) :
  sort_keys sort_column df = Ok keys ->
  sort_keys sort_column (take p df) = Ok (take p keys).
Proof.
  unfold sort_keys.
  destruct (column df sort_column) as [k| |] eqn:Hk; simpl; [|done..].
  apply column_Ok in Hk.
  apply (take_Forall2 _ p) in Hk. apply column_Ok in Hk. rewrite Hk. simpl.
  destruct (String.eqb sort_column "Name").
  - apply str_lower_take.
  - by intros [= <-].
Qed.

Lemma sort_keys_length (sort_column : string) (df : DataFrame) (keys : list cell) :
  sort_keys sort_column df = Ok keys -> length keys = length df.
Proof.
  unfold sort_keys.
  destruct (column df sort_column) as [k| |] eqn:Hk; simpl; [|done..].
  apply column_Ok, Forall2_length in Hk. rewrite Hk.
  destruct (String.eqb sort_column "Name"); [|by intros [= <-]].
  unfold str_lower. destruct (forallb is_str k); [|done].
  intros [= <-]. by rewrite length_map.
Qed.

Lemma sort_keys_reverse (sort_column : string) (df : DataFrame) (keys : list cell) :
  sort_keys sort_column df = Ok keys ->
  sort_keys sort_column (reverse df) = Ok (reverse keys).
Proof.
  intros Hk. pose proof (sort_keys_length _ _ _ Hk) as Hlen.
  rewrite <-(take_all df) at 1. rewrite <-take_reverse.
  rewrite (sort_keys_take _ _ _ _ Hk), take_reverse.
  by rewrite <-Hlen, take_all.
Qed.


(** *** A ranking routine that meets the contract: merge sort *)

#[global] Instance by_key_total : Total by_key.
Proof.
  intros [i a] [j b]. unfold by_key. simpl.
  destruct a as [|x|s], b as [|y|t]; simpl; auto.
  - destruct x, y; auto.
  - apply String.leb_total.
Qed.

Lemma Sorted_fmap_on {A B} (R : relation A) (R' : relation B) (P : A -> Prop)
    (f : A -> B) (l : list A) :
  (forall x y, P x -> P y -> R x y -> R' (f x) (f y)) ->
  Forall P l -> Sorted R l -> Sorted R' (f <$> l).
Proof.
  intros HR HP Hl. induction Hl as [|x l _ IH Hhd]; simpl; [constructor|].
  apply Forall_cons in HP as [Hx HP]. constructor; [by apply IH|].
  destruct Hhd as [|y l' Hxy]; simpl; constructor.
  apply Forall_cons in HP as [Hy _]. by apply HR.
Qed.

Lemma take_positions (keys : list cell) (l : list (nat * cell)) :
  Forall (fun x => keys !! (fst x) = Some (snd x)) l ->
  take l.*1 keys = l.*2.
Proof.
  induction 1 as [|[i c] l Hi _ IH]; [done|].
  rewrite !fmap_cons. cbn [fst snd] in *.
  by rewrite (take_cons_Some _ _ _ _ Hi), IH.
Qed.

Lemma merge_argsort_sorts (keys : list cell) :
  orderable keys = true ->
  exists p, merge_argsort keys = Ok p
            /\ p ≡ₚ seq 0 (length keys)
            /\ Sorted cell_le (take p keys).
Proof.
  intros Hord. unfold merge_argsort. rewrite Hord. simpl.
  set (l := merge_sort by_key (zip (seq 0 (length keys)) keys)).
  assert (l ≡ₚ zip (seq 0 (length keys)) keys) as Hl
    by apply merge_sort_Permutation.
  assert (Forall (fun x => keys !! (fst x) = Some (snd x)) l) as Hpos.
  { apply Forall_forall. intros [i c] Hic. rewrite Hl in Hic.
    apply list_elem_of_lookup in Hic as [j Hj].
    apply lookup_zip_Some in Hj as [Hi Hc].
    apply lookup_seq in Hi as [-> _]. done. }
  exists l.*1. split; [done|]. split.
  - rewrite Hl, fst_zip; [done|]. by rewrite length_seq.
  - rewrite (take_positions keys l Hpos).
    assert (Sorted by_key l) as Hsorted by apply (Sorted_merge_sort by_key).
    unfold orderable in Hord. apply orb_true_iff in Hord as [Hk|Hk];
      rewrite forallb_forall in Hk.
    + apply (Sorted_fmap_on by_key cell_le (fun x => is_str (snd x) = true));
        [|apply Forall_forall; intros [i c] Hic|done].
      * intros [i [| |s]] [j [| |t]]; simpl; try done.
        intros _ _ Hst. by apply cell_le_str.
      * apply Hk, list_elem_of_In. rewrite Forall_forall in Hpos.
        eapply list_elem_of_lookup_2, (Hpos (i, c) Hic).
    + apply (Sorted_fmap_on by_key cell_le (fun x => is_bool (snd x) = true));
        [|apply Forall_forall; intros [i c] Hic|done].
      * intros [i [|x|]] [j [|y|]]; simpl; try done.
        intros _ _ Hxy. by apply cell_le_bool.
      * apply Hk, list_elem_of_In. rewrite Forall_forall in Hpos.
        eapply list_elem_of_lookup_2, (Hpos (i, c) Hic).
Qed.

#[global] Instance merge_ranking : Argsort :=
  {| argsort := merge_argsort; argsort_sorts := merge_argsort_sorts |}.

Example sort_chain_id_descending :
  apply_sort "Chain ID" "Descending" three_chains =
  Ok [ [("Name", CStr "c"); ("Chain ID", CStr "c-3")];
       [("Name", CStr "b"); ("Chain ID", CStr "b-2")];
       [("Name", CStr "a"); ("Chain ID", CStr "a-1")] ].
Proof. vm_compute. reflexivity. Qed.



(** ** Fetcher and cache *)

Lemma fresh_insert_same (now t : nat) (c : cache_data) (p : FetchParameters)
    (r : pyval * list element) :
  now < t + ttl -> fresh now (<[p := (t, r)]> c) p = Some r.
Proof.
  intros Hlt. unfold fresh. rewrite lookup_insert_eq.
  by apply Nat.ltb_lt in Hlt as ->.
Qed.

Lemma fresh_insert_other (now t : nat) (c : cache_data) (p p' : FetchParameters)
    (r : pyval * list element) :
  p <> p' -> fresh now (<[p := (t, r)]> c) p' = fresh now c p'.
Proof. intros Hne. unfold fresh. by rewrite lookup_insert_ne. Qed.

Lemma cached_fetch_miss (net : network) (now : nat) (p : FetchParameters) (w : world) :
  fresh now (cache w) p = None ->
  cached_fetch_chain_data net now p w =
  (fst (fetch_chain_data net p),
   {| cache := <[p := (now, fetch_chain_data net p)]> (cache w);
      sent := sent w ++ [params p];
      page := page w ++ snd (fetch_chain_data net p) |}).
Proof.
  intros Hmiss. unfold cached_fetch_chain_data. rewrite Hmiss.
  by destruct (fetch_chain_data net p).
Qed.

Lemma cached_fetch_hit (net : network) (now : nat) (p : FetchParameters) (w : world)
    (v : pyval) (shown : list element) :
  fresh now (cache w) p = Some (v, shown) ->
  cached_fetch_chain_data net now p w =
  (v, {| cache := cache w; sent := sent w; page := page w ++ shown |}).
Proof. intros Hhit. unfold cached_fetch_chain_data. by rewrite Hhit. Qed.

(** C7.  Of two calls with the same parameters, the second less than an
    hour after the first, at most one goes to the network; when the first
    one did, the second returns the value the first stored and sends
    nothing.  A call with other parameters, for which the cache holds no
    live entry, sends a request of its own. *)
Theorem cached_fetch_within_ttl (net1 net2 : network) (t1 t2 : nat)
    (p p' : FetchParameters) (w : world) :
  t2 < t1 + ttl ->
  let first := cached_fetch_chain_data net1 t1 p w in
  let second := cached_fetch_chain_data net2 t2 p (snd first) in
  let other := cached_fetch_chain_data net2 t2 p' (snd first) in
  length (sent (snd second)) <= S (length (sent w))
  /\ (fresh t1 (cache w) p = None ->
        sent (snd first) = sent w ++ [params p]
        /\ fst second = fst first
        /\ sent (snd second) = sent (snd first))
  /\ (p' <> p -> fresh t2 (cache w) p' = None ->
        sent (snd other) = sent (snd first) ++ [params p']).
Proof.
  intros Hlt first second other.
  assert (fresh t1 (cache w) p = None ->
          sent (snd first) = sent w ++ [params p]
          /\ fst second = fst first
          /\ sent (snd second) = sent (snd first)) as Hmiss.
  { intros Hm. subst second first. rewrite (cached_fetch_miss _ _ _ _ Hm).
    simpl. destruct (fetch_chain_data net1 p) as [v shown] eqn:Hf.
    erewrite cached_fetch_hit; [done|]. simpl. by apply fresh_insert_same. }
  split; [|split; [done|]].
  - destruct (fresh t1 (cache w) p) as [[v shown]|] eqn:Hfirst.
    + subst second first. rewrite (cached_fetch_hit _ _ _ _ _ _ Hfirst). simpl.
      unfold cached_fetch_chain_data. simpl.
      destruct (fresh t2 (cache w) p) as [[v' shown']|]; simpl; [lia|].
      destruct (fetch_chain_data net2 p). simpl. rewrite length_app. simpl. lia.
    + destruct Hmiss as (Hs & _ & ->); [done|]. rewrite Hs, length_app. simpl. lia.
  - intros Hne Hother. subst other first.
    destruct (fresh t1 (cache w) p) as [[v shown]|] eqn:Hfirst.
    + rewrite (cached_fetch_hit _ _ _ _ _ _ Hfirst). simpl.
      by rewrite cached_fetch_miss.
    + rewrite (cached_fetch_miss _ _ _ _ Hfirst). simpl.
      rewrite cached_fetch_miss; [done|]. simpl.
      by rewrite fresh_insert_other.
Qed.

Lemma cached_fetch_within_ttl_witness :
  let first := cached_fetch_chain_data osmosis_only 100 (true, true, false) empty_world in
  let second := cached_fetch_chain_data offline 3699 (true, true, false) (snd first) in
  let other := cached_fetch_chain_data offline 3699 (true, true, true) (snd first) in
  length (sent (snd second)) <= S (length (sent empty_world))
  /\ (fresh 100 (cache empty_world) (true, true, false) = None ->
        sent (snd first) = sent empty_world ++ [params (true, true, false)]
        /\ fst second = fst first
        /\ sent (snd second) = sent (snd first))
  /\ ((true, true, true) <> (true, true, false) ->
      fresh 3699 (cache empty_world) (true, true, true) = None ->
        sent (snd other) = sent (snd first) ++ [params (true, true, true)]).
Proof.
  apply (cached_fetch_within_ttl osmosis_only offline 100 3699
           (true, true, false) (true, true, true) empty_world).
  unfold ttl. lia.
Defined.

(** A failed fetch is stored like any other: within the hour the next call
    returns [None] again and shows the message again, without a request,
    even if the directory can be reached by then. *)
Example failure_is_cached :
  let first := cached_fetch_chain_data offline 0 (true, true, false) empty_world in
  let second := cached_fetch_chain_data osmosis_only 1800 (true, true, false) (snd first) in
  fst second = PNone
  /\ sent (snd second) = [params (true, true, false)]
  /\ page (snd second) =
     [ st_error "Error fetching data from API: connection refused";
       st_error "Error fetching data from API: connection refused" ].
Proof. vm_compute. repeat split. Qed.

(** ** Orchestrator *)

Lemma fetch_chain_data_failed (net : network) (p : FetchParameters) :
  failed (net url (params p)) ->
  exists cause,
    fetch_chain_data net p =
    (PNone, [st_error ("Error fetching data from API: " +:+ cause)]).
Proof.
  unfold fetch_chain_data, failed.
  destruct (net url (params p)) as [cause|r]; [by exists cause|].
  intros [Hlo Hhi]. exists (http_error r).
  apply Nat.leb_le in Hlo as ->. by apply Nat.ltb_lt in Hhi as ->.
Qed.

Lemma fetch_chain_data_cause (net : network) (p : FetchParameters) :
  failed (net url (params p)) ->
  fetch_chain_data net p =
  (PNone, [st_error ("Error fetching data from API: " +:+ cause (net url (params p)))]).
Proof.
  unfold fetch_chain_data, failed, cause.
  destruct (net url (params p)) as [why|r]; [done|].
  intros [Hlo Hhi].
  apply Nat.leb_le in Hlo as ->. by apply Nat.ltb_lt in Hhi as ->.
Qed.

Lemma main_never_raises `{Argsort} (net : network) (now : nat) (i : inputs)
    (w : world) (e : exn) :
  fst (main net now i w) <> Raise e.
Proof.
  unfold main. destruct (main_body net now i w) as [[[]|e'|] w']; done.
Qed.

(** C6, amended.  When the request fails, or is answered with a status from
    400 to 599, the fetcher raises nothing: it shows the message "Error
    fetching data from API: " followed by the cause as the exception
    describes it, and returns [None]; normalisation of that value gives the
    empty frame, the page ends with that message and the no-data warning and
    shows no table.  No run of [main], whatever its inputs, ends in an
    exception. *)
Theorem fetch_failure_contained `{Argsort} (net : network) (now : nat)
    (i : inputs) (w : world) :
  failed (net url (params (include_evm i, include_svm i, only_testnets i))) ->
  fresh now (cache w) (include_evm i, include_svm i, only_testnets i) = None ->
  (fetch_chain_data net (include_evm i, include_svm i, only_testnets i)
   = (PNone,
      [st_error ("Error fetching data from API: " +:+
                 cause (net url (params (include_evm i, include_svm i, only_testnets i))))])
   /\ process_chain_data PNone = Ok empty_frame
   /\ fst (main net now i w) = Ok ()
   /\ page (snd (main net now i w)) =
      page w ++
      [ st_title "🔗 Chain ID Glossary";
        st_write "Explore and search through blockchain network data from Skip Go API.";
        st_error ("Error fetching data from API: " +:+
                  cause (net url (params (include_evm i, include_svm i, only_testnets i))));
        st_warning "No data available. Please try again later." ])
  /\ (forall net' now' i' w' e, fst (main net' now' i' w') <> Raise e).
Proof.
  intros Hfail Hmiss. split; [|intros; apply main_never_raises].
  pose proof (fetch_chain_data_cause _ _ Hfail) as Hf.
  split; [done|]. split; [done|].
  unfold main, main_body.
  rewrite cached_fetch_miss by done. rewrite Hf. simpl.
  split; [done|]. by rewrite <-!app_assoc.
Qed.

Lemma fetch_failure_contained_witness :
  (fetch_chain_data offline (true, true, false)
   = (PNone,
      [st_error ("Error fetching data from API: " +:+
                 cause (offline url (params (true, true, false))))])
   /\ process_chain_data PNone = Ok empty_frame
   /\ fst (main offline 0 default_inputs empty_world) = Ok ()
   /\ page (snd (main offline 0 default_inputs empty_world)) =
      page empty_world ++
      [ st_title "🔗 Chain ID Glossary";
        st_write "Explore and search through blockchain network data from Skip Go API.";
        st_error ("Error fetching data from API: " +:+
                  cause (offline url (params (true, true, false))));
        st_warning "No data available. Please try again later." ])
  /\ (forall net' now' i' w' e, fst (main net' now' i' w') <> Raise e).
Proof.
  apply (fetch_failure_contained offline 0 default_inputs empty_world).
  - exact I.
  - reflexivity.
Defined.

(** C6, as stated, fails: what the fetcher returns on a failure is [None],
    the same value whatever the cause was; the cause is in the message shown,
    not in the value returned. *)
Lemma fetch_failure_returns_none :
  fetch_chain_data (fun _ _ => RequestException "connection refused") (true, true, false)
    = (PNone, [st_error "Error fetching data from API: connection refused"])
  /\ fetch_chain_data
       (fun _ _ => Response {| status_code := 503;
                             http_error := "503 Server Error: Service Unavailable";
                             content := NotJson "" |})
       (true, true, false)
    = (PNone, [st_error "Error fetching data from API: 503 Server Error: Service Unavailable"]).
Proof. split; reflexivity. Qed.

Example main_shows_table :
  page (snd (main osmosis_only 0 default_inputs empty_world)) =
  [ st_title "🔗 Chain ID Glossary";
    st_write "Explore and search through blockchain network data from Skip Go API.";
    st_subheader "Chain Data Table";
    st_table [[ ("Logo URI", CStr "N/A"); ("Name", CStr "osmosis");
                ("Chain ID", CStr "osmosis-1"); ("PFM Enabled", CStr "N/A");
                ("Chain Type", CStr "N/A"); ("Is Testnet", CStr "N/A");
                ("Pretty Name", CStr "N/A"); ("Bech32 Prefix", CStr "") ]] ].
Proof. vm_compute. reflexivity. Qed.

(** * Further properties of the pipeline *)

(** ** Fetcher and cache, continued *)

(** X9.  The query string identifies the parameters: two parameter tuples
    send the same request only if they are the same tuple, so no two cache
    entries stand for the same request. *)
Theorem params_inj (p q : FetchParameters) :
  params p = params q -> p = q.
Proof.
  destruct p as [[[] []] []], q as [[[] []] []]; simpl; intros [=]; reflexivity.
Qed.

Lemma params_inj_witness :
  (true, false, true) = (true, false, true).
Proof. apply (params_inj (true, false, true) (true, false, true)). reflexivity. Defined.

Lemma fetch_chain_data_answers (net : network) (p : FetchParameters) (data : pyval) :
  answers net p data -> fetch_chain_data net p = (data, []).
Proof.
  intros (r & Hr & Hstatus & Hjson). unfold fetch_chain_data. rewrite Hr, Hjson.
  destruct ((400 <=? status_code r)%nat && (status_code r <? 600)%nat) eqn:Hs;
    [|done].
  apply andb_true_iff in Hs as [Hlo Hhi].
  apply Nat.leb_le in Hlo. apply Nat.ltb_lt in Hhi. by destruct Hstatus.
Qed.

(** X3.  A failed fetch is stored like a successful one: after a call that
    went to the network and failed, a call with the same parameters less than
    an hour later returns [None] and shows the same message again without a
    request, whatever the state of the network by then. *)
Theorem failed_fetch_is_cached (net1 net2 : network) (t1 t2 : nat)
    (p : FetchParameters) (w : world) :
  fresh t1 (cache w) p = None ->
  failed (net1 url (params p)) ->
  t2 < t1 + ttl ->
  let first := cached_fetch_chain_data net1 t1 p w in
  let second := cached_fetch_chain_data net2 t2 p (snd first) in
  fst second = PNone
  /\ sent (snd second) = sent w ++ [params p]
  /\ exists text, page (snd second) = page w ++ [st_error text; st_error text].
Proof.
  intros Hmiss Hfail Hlt first second. subst second first.
  destruct (fetch_chain_data_failed _ _ Hfail) as [cause Hf].
  rewrite (cached_fetch_miss _ _ _ _ Hmiss), Hf. simpl.
  erewrite cached_fetch_hit; [|by apply fresh_insert_same]. simpl.
  repeat split. eexists. by rewrite <-app_assoc.
Qed.

Lemma failed_fetch_is_cached_witness :
  let first := cached_fetch_chain_data offline 0 (true, true, false) empty_world in
  let second := cached_fetch_chain_data osmosis_only 3599 (true, true, false) (snd first) in
  fst second = PNone
  /\ sent (snd second) = sent empty_world ++ [params (true, true, false)]
  /\ exists text, page (snd second) = page empty_world ++ [st_error text; st_error text].
Proof.
  apply (failed_fetch_is_cached offline osmosis_only 0 3599 (true, true, false) empty_world).
  - reflexivity.
  - exact I.
  - unfold ttl. lia.
Defined.

(** X4.  An entry is stale from the 3600th second on: a call with the same
    parameters an hour or more after the call that stored it goes to the
    network again and returns what the network gives then. *)
Theorem cached_fetch_expires (net1 net2 : network) (t1 t2 : nat)
    (p : FetchParameters) (w : world) :
  fresh t1 (cache w) p = None ->
  t1 + ttl <= t2 ->
  let first := cached_fetch_chain_data net1 t1 p w in
  let second := cached_fetch_chain_data net2 t2 p (snd first) in
  fst second = fst (fetch_chain_data net2 p)
  /\ sent (snd second) = sent w ++ [params p; params p]
  /\ fresh t2 (cache (snd second)) p = Some (fetch_chain_data net2 p).
Proof.
  intros Hmiss Hle first second. subst second first.
  rewrite (cached_fetch_miss _ _ _ _ Hmiss). simpl.
  rewrite cached_fetch_miss; simpl.
  - repeat split.
    + by rewrite <-app_assoc.
    + apply fresh_insert_same. unfold ttl. lia.
  - unfold fresh. rewrite lookup_insert_eq.
    by apply Nat.ltb_ge in Hle as ->.
Qed.

Lemma cached_fetch_expires_witness :
  let first := cached_fetch_chain_data offline 100 (true, true, false) empty_world in
  let second := cached_fetch_chain_data osmosis_only 3700 (true, true, false) (snd first) in
  fst second = fst (fetch_chain_data osmosis_only (true, true, false))
  /\ sent (snd second) =
     sent empty_world ++ [params (true, true, false); params (true, true, false)]
  /\ fresh 3700 (cache (snd second)) (true, true, false)
     = Some (fetch_chain_data osmosis_only (true, true, false)).
Proof.
  apply (cached_fetch_expires offline osmosis_only 100 3700 (true, true, false) empty_world).
  - reflexivity.
  - unfold ttl. lia.
Defined.

(** ** Normaliser, continued *)

(** X5.  The guard of [process_chain_data] tests that the key [chains] is
    there, not what it holds.  Null, a boolean or a number under it raises
    [TypeError]; a non-empty string or mapping raises [AttributeError]; an
    empty string, mapping or list gives the empty frame. *)
Theorem chains_not_a_list (d : dict) (v : pyval) :
  dict_get d "chains" = Some v ->
  (v = PNone \/ (exists b, v = PBool b) \/ (exists z, v = PNum z) ->
     process_chain_data (PDict d) = Raise TypeError)
  /\ ((exists c s, v = PStr (String c s)) \/ (exists kv e, v = PDict (kv :: e)) ->
     process_chain_data (PDict d) = Raise AttributeError)
  /\ (v = PStr "" \/ v = PDict [] \/ v = PList [] ->
     process_chain_data (PDict d) = Ok empty_frame).
Proof.
  intros Hv. unfold process_chain_data, py_in, dict_has, py_getitem.
  assert (truthy (PDict d) = true) as -> by (by destruct d).
  rewrite Hv. cbn [negb orb is_dict].
  split; [|split].
  - by intros [-> | [[b ->] | [z ->]]].
  - by intros [(c & s & ->) | ([k x] & e & ->)].
  - by intros [-> | [-> | ->]].
Qed.

Lemma chains_not_a_list_witness :
  (PNone = PNone \/ (exists b, PNone = PBool b) \/ (exists z, PNone = PNum z) ->
     process_chain_data (PDict [("chains", PNone)]) = Raise TypeError)
  /\ ((exists c s, PNone = PStr (String c s)) \/ (exists kv e, PNone = PDict (kv :: e)) ->
     process_chain_data (PDict [("chains", PNone)]) = Raise AttributeError)
  /\ (PNone = PStr "" \/ PNone = PDict [] \/ PNone = PList [] ->
     process_chain_data (PDict [("chains", PNone)]) = Ok empty_frame).
Proof. apply (chains_not_a_list [("chains", PNone)] PNone). reflexivity. Defined.

(** ** Filterer, continued *)

Lemma df_filter_sublist (g : record -> outcome bool) (df kept : DataFrame) :
  df_filter g df = Ok kept -> kept `sublist_of` df.
Proof.
  revert kept. induction df as [|r df IH]; intros kept; simpl.
  - by intros [= <-].
  - destruct (g r) as [b| |]; simpl; [|done..].
    destruct (df_filter g df) as [rest| |]; simpl; [|done..].
    intros [= <-]. destruct b; constructor; by apply IH.
Qed.

(** X2.  Whatever the search term, the filter only removes records: what it
    returns is the frame with some records left out, the others in their
    order. *)
Theorem apply_search_sublist (q : string) (df kept : DataFrame) :
  apply_search q df = Ok kept -> kept `sublist_of` df.
Proof.
  unfold apply_search. destruct (truthy (PStr q)).
  - apply df_filter_sublist.
  - by intros [= <-].
Qed.

Lemma apply_search_sublist_witness :
  [cosmoshub] `sublist_of` [osmosis; cosmoshub].
Proof. apply (apply_search_sublist "HUB" [osmosis; cosmoshub] [cosmoshub]). reflexivity. Defined.

Lemma re_compile_app (pre rest : string) :
  plain pre = true ->
  re_compile (pre +:+ rest) = app (literals pre) <$> re_compile rest.
Proof.
  unfold plain. induction pre as [|c pre IH].
  - intros _. change ("" +:+ rest) with rest. by destruct (re_compile rest).
  - change (String c pre +:+ rest) with (String c (pre +:+ rest)).
    simpl. rewrite andb_true_iff, negb_true_iff. intros [Hc Hpre].
    assert (Ascii.eqb c "." = false /\ Ascii.eqb c "\" = false
            /\ Ascii.eqb c "[" = false) as (-> & -> & ->).
    { revert Hc. unfold special, ascii_in. simpl. rewrite !orb_false_iff. tauto. }
    rewrite Hc, (IH Hpre). by destruct (re_compile rest).
Qed.

(** X7.  A search term that, after ordinary characters, has a bracket that
    is never closed, or ends in a backslash, is not a pattern: on a frame
    with at least one record the filter raises [re.error]. *)
Theorem broken_pattern_raises (pre rest : string) (r : record) (df : DataFrame) :
  plain pre = true ->
  ascii_in "]" rest = false ->
  apply_search (pre +:+ "[" +:+ rest) (r :: df) = Raise ReError
  /\ apply_search (pre +:+ "\") (r :: df) = Raise ReError.
Proof.
  intros Hpre Hrest.
  assert (forall q, re_compile q = Raise ReError -> q <> "" ->
            apply_search q (r :: df) = Raise ReError) as Hraise.
  { intros q Hq Hne. unfold apply_search.
    assert (truthy (PStr q) = true) as ->.
    { simpl. by apply negb_true_iff, String.eqb_neq. }
    simpl. unfold row_matches. by rewrite Hq. }
  split; apply Hraise.
  - rewrite (re_compile_app _ _ Hpre).
    change ("[" +:+ rest) with (String "[" rest). simpl. by rewrite Hrest.
  - by destruct pre.
  - by rewrite (re_compile_app _ _ Hpre).
  - by destruct pre.
Qed.

Lemma broken_pattern_raises_witness :
  apply_search ("osmo" +:+ "[" +:+ "a-z") [osmosis] = Raise ReError
  /\ apply_search ("osmo" +:+ "\") [osmosis] = Raise ReError.
Proof. apply (broken_pattern_raises "osmo" "a-z" osmosis []); reflexivity. Defined.

(** ** Normalised frames *)

Lemma lower_ascii_idemp (c : ascii) : lower_ascii (lower_ascii c) = lower_ascii c.
Proof. destruct c as [[] [] [] [] [] [] [] []]; reflexivity. Qed.

Lemma lower_idemp (s : string) : lower (lower s) = lower s.
Proof. induction s as [|c s IH]; simpl; [done|]. by rewrite lower_ascii_idemp, IH. Qed.

Lemma process_chain_data_records (data : pyval) (df : DataFrame) :
  process_chain_data data = Ok df -> Forall (fun r => exists d, record_of d r) df.
Proof.
  unfold process_chain_data.
  destruct (negb (truthy data) || negb (is_dict data) || negb (py_in "chains" data));
    [intros [= <-]; constructor|].
  destruct (py_getitem data "chains" ≫= py_iter) as [entries| |]; simpl; [|done..].
  destruct (mapM chain_info entries) as [chains| |] eqn:Hc; simpl; [|done..].
  unfold pd_DataFrame. intros Hdf.
  apply mapM_Ok in Hdf. apply (proj1 (mapM_Ok _ _ _)) in Hc.
  revert df Hdf. induction Hc as [|entry info entries chains Hi _ IH]; intros df Hdf.
  - apply Forall2_nil_inv_l in Hdf as ->. constructor.
  - apply Forall2_cons_inv_l in Hdf as (r & df' & Hr & Hdf & ->).
    constructor; [|by apply IH].
    destruct (chain_info_Ok _ _ Hi) as (e & s & -> & _ & _).
    exists e. by eapply to_record_of.
Qed.








Lemma process_chain_data_names (data : pyval) (df : DataFrame) :
  process_chain_data data = Ok df ->
  Forall (fun r => exists s, record_get r "Name" = Some (CStr s) /\ lower s = s) df.
Proof.
  intros Hdf. apply process_chain_data_records in Hdf.
  eapply Forall_impl; [exact Hdf|]. simpl.
  intros r (d & _ & _ & (s & _ & Hname) & _).
  exists (lower s). split; [done|apply lower_idemp].
Qed.

(** X8.  In every frame that [process_chain_data] returns, the Name of every
    record is a string in lower case.  So the key function of the sort by
    Name changes nothing, and the default sort of [main] by Name returns the
    records of the frame, rearranged. *)
Theorem name_is_lowercase_text `{Argsort} (data : pyval) (df : DataFrame) :
  process_chain_data data = Ok df ->
  Forall (fun r => exists s, record_get r "Name" = Some (CStr s) /\ lower s = s) df
  /\ sort_keys "Name" df = column df "Name"
  /\ exists sorted, sort_values df "Name" None true = Ok sorted /\ sorted ≡ₚ df.
Proof.
  intros Hdf. pose proof (process_chain_data_names _ _ Hdf) as Hnames.
  split; [done|].
  assert (exists keys, column df "Name" = Ok keys
            /\ str_lower keys = Ok keys /\ orderable keys = true)
    as (keys & Hcol & Hlow & Hord).
  { clear Hdf. induction Hnames as [|r df (s & Hs & Hl) _ (keys & Hk & Hlow & Hord)].
    - by exists [].
    - exists (CStr s :: keys). simpl. rewrite Hs, Hk.
      unfold str_lower, orderable in *. simpl.
      destruct (forallb is_str keys); [|done].
      injection Hlow as Hlow. by rewrite Hl, Hlow. }
  split.
  - unfold sort_keys. rewrite Hcol. done.
  - destruct (nargsort_orderable keys Hord) as (p & _ & Hasc & _ & Hp & _).
    exists (take p df). unfold sort_values. rewrite Hcol. simpl. rewrite Hasc.
    split; [done|]. apply take_perm.
    apply column_Ok, Forall2_length in Hcol. by rewrite Hcol.
Qed.

Lemma name_is_lowercase_text_witness :
  Forall (fun r => exists s, record_get r "Name" = Some (CStr s) /\ lower s = s)
    [[ ("Logo URI", CStr "N/A"); ("Name", CStr "osmosis");
       ("Chain ID", CStr "osmosis-1"); ("PFM Enabled", CStr "N/A");
       ("Chain Type", CStr "N/A"); ("Is Testnet", CStr "N/A");
       ("Pretty Name", CStr "N/A"); ("Bech32 Prefix", CStr "") ]]
  /\ sort_keys "Name"
       [[ ("Logo URI", CStr "N/A"); ("Name", CStr "osmosis");
          ("Chain ID", CStr "osmosis-1"); ("PFM Enabled", CStr "N/A");
          ("Chain Type", CStr "N/A"); ("Is Testnet", CStr "N/A");
          ("Pretty Name", CStr "N/A"); ("Bech32 Prefix", CStr "") ]]
     = column
         [[ ("Logo URI", CStr "N/A"); ("Name", CStr "osmosis");
            ("Chain ID", CStr "osmosis-1"); ("PFM Enabled", CStr "N/A");
            ("Chain Type", CStr "N/A"); ("Is Testnet", CStr "N/A");
            ("Pretty Name", CStr "N/A"); ("Bech32 Prefix", CStr "") ]] "Name"
  /\ exists sorted,
       sort_values
         [[ ("Logo URI", CStr "N/A"); ("Name", CStr "osmosis");
            ("Chain ID", CStr "osmosis-1"); ("PFM Enabled", CStr "N/A");
            ("Chain Type", CStr "N/A"); ("Is Testnet", CStr "N/A");
            ("Pretty Name", CStr "N/A"); ("Bech32 Prefix", CStr "") ]]
         "Name" None true = Ok sorted
       /\ sorted ≡ₚ
          [[ ("Logo URI", CStr "N/A"); ("Name", CStr "osmosis");
             ("Chain ID", CStr "osmosis-1"); ("PFM Enabled", CStr "N/A");
             ("Chain Type", CStr "N/A"); ("Is Testnet", CStr "N/A");
             ("Pretty Name", CStr "N/A"); ("Bech32 Prefix", CStr "") ]].
Proof. apply (name_is_lowercase_text scenario1). reflexivity. Defined.


(** ** Runs of [main] *)

(** A run that fetches: the world after the fetch, and what follows. *)
Lemma main_fetched `{Argsort} (net : network) (now : nat) (i : inputs) (w : world)
    (data : pyval) :
  fresh now (cache w) (toggles i) = None ->
  answers net (toggles i) data ->
  main net now i w =
  let w' := {| cache := <[toggles i := (now, (data, []))]> (cache w);
               sent := sent w ++ [params (toggles i)];
               page := page w ++ heading |} in
  match process_chain_data data with
  | Ok df =>
      if df_empty df then (Ok (), show [no_data] w')
      else match pipeline i df with
           | Ok sorted_df =>
               (Ok (), show [st_subheader "Chain Data Table"; st_table sorted_df] w')
           | Raise e => (Ok (), show [st_unexpected e] w')
           | Unmodelled => (Unmodelled, w')
           end
  | Raise e => (Ok (), show [st_unexpected e] w')
  | Unmodelled => (Unmodelled, w')
  end.
Proof.
  intros Hmiss Hdata. unfold main, main_body, pipeline, toggles in *.
  rewrite cached_fetch_miss by done.
  rewrite (fetch_chain_data_answers _ _ _ Hdata).
  cbn [fst snd show cache sent page]. rewrite app_nil_r.
  destruct (process_chain_data data) as [df| |]; [|done..].
  destruct (df_empty df); [done|].
  by destruct (_ ← sort_values df "Name" None true; _).
Qed.






(** X6.  One entry that cannot be normalised (it is not a mapping, or its
    [chain_name] is not a string) hides the whole table: the run shows the
    message for an unexpected error and nothing of the entries before or
    after it. *)
Theorem bad_entry_hides_table `{Argsort} (net : network) (now : nat) (i : inputs)
    (w : world) (good : list pyval) (bad : pyval) (rest : list pyval) (e : exn) :
  fresh now (cache w) (toggles i) = None ->
  answers net (toggles i) (PDict [("chains", PList (good ++ bad :: rest))]) ->
  Forall (fun entry => exists info, chain_info entry = Ok info) good ->
  chain_info bad = Raise e ->
  fst (main net now i w) = Ok ()
  /\ page (snd (main net now i w)) = page w ++ heading ++ [st_unexpected e].
Proof.
  intros Hmiss Hdata Hgood Hbad.
  rewrite (main_fetched _ _ _ _ _ Hmiss Hdata).
  assert (process_chain_data (PDict [("chains", PList (good ++ bad :: rest))])
          = Raise e) as ->.
  { unfold process_chain_data. simpl. by erewrite mapM_raise. }
  cbn zeta. simpl. split; [done|]. by rewrite <-app_assoc.
Qed.

Lemma bad_entry_hides_table_witness :
  fst (main (fun _ _ => Response {| status_code := 200; http_error := "";
          content := Json (PDict [("chains",
            PList ([PDict [("chain_name", PStr "Osmosis")]]
                   ++ PDict [("chain_name", PNone)] :: []))]) |})
        0 default_inputs empty_world) = Ok ()
  /\ page (snd (main (fun _ _ => Response {| status_code := 200; http_error := "";
          content := Json (PDict [("chains",
            PList ([PDict [("chain_name", PStr "Osmosis")]]
                   ++ PDict [("chain_name", PNone)] :: []))]) |})
        0 default_inputs empty_world))
     = page empty_world ++ heading ++ [st_unexpected AttributeError].
Proof.
  apply (bad_entry_hides_table _ 0 default_inputs empty_world
           [PDict [("chain_name", PStr "Osmosis")]] (PDict [("chain_name", PNone)]) []).
  - reflexivity.
  - eexists. split; [reflexivity|]. split; [simpl; lia|reflexivity].
  - repeat constructor. by eexists.
  - reflexivity.
Defined.

Lemma fetch_chain_data_shapes (net : network) (p : FetchParameters) :
  fetch_chain_data net p = (fst (fetch_chain_data net p), [])
  \/ exists text, fetch_chain_data net p = (PNone, [st_error text]).
Proof.
  unfold fetch_chain_data. destruct (net url (params p)) as [|r]; [eauto|].
  destruct (_ && _); [eauto|]. destruct (content r); eauto.
Qed.

Lemma cache_sound_insert (c : cache_data) (p : FetchParameters) (t : nat)
    (v : pyval) (shown : list element) :
  cache_sound c ->
  shown = [] \/ (v = PNone /\ exists text, shown = [st_error text]) ->
  cache_sound (<[p := (t, (v, shown))]> c).
Proof.
  intros Hc Hnew p' t' v' shown'. rewrite lookup_insert.
  case_decide; [by intros [= <- <- <-]|apply Hc].
Qed.

Lemma cached_fetch_sound (net : network) (now : nat) (p : FetchParameters) (w : world) :
  cache_sound (cache w) ->
  cache_sound (cache (snd (cached_fetch_chain_data net now p w)))
  /\ ((page (snd (cached_fetch_chain_data net now p w)) = page w)
      \/ (fst (cached_fetch_chain_data net now p w) = PNone
          /\ exists text,
               page (snd (cached_fetch_chain_data net now p w))
               = page w ++ [st_error text])).
Proof.
  intros Hsound. unfold cached_fetch_chain_data.
  destruct (fresh now (cache w) p) as [[v shown]|] eqn:Hp.
  - simpl. split; [done|]. unfold fresh in Hp.
    destruct (cache w !! p) as [[t [v' shown']]|] eqn:Hc; [|done].
    destruct (now <? t + ttl)%nat; [|done]. injection Hp as -> ->.
    destruct (Hsound _ _ _ _ Hc) as [-> | (-> & text & ->)].
    + left. by rewrite app_nil_r.
    + right. eauto.
  - destruct (fetch_chain_data_shapes net p) as [Hf | [text Hf]]; rewrite Hf; simpl.
    + split; [apply cache_sound_insert; auto|]. left. by rewrite app_nil_r.
    + split; [apply cache_sound_insert; eauto|]. right. eauto.
Qed.

(** X14.  From a cache that [st.cache_data] has filled, a run adds to the
    page the title and the introduction and then one of: an error message
    and the no-data warning; the no-data warning; the table heading and one
    table; the message for an unexpected error.  It never shows a table
    together with a message, and it leaves the cache as [st.cache_data]
    fills it. *)
Theorem main_page_shapes `{Argsort} (net : network) (now : nat) (i : inputs) (w : world) :
  cache_sound (cache w) ->
  cache_sound (cache (snd (main net now i w)))
  /\ exists shown,
       page (snd (main net now i w)) = page w ++ heading ++ shown
       /\ ((exists text, shown = [st_error text; no_data])
           \/ shown = [no_data]
           \/ (exists df, shown = [st_subheader "Chain Data Table"; st_table df])
           \/ (exists e, shown = [st_unexpected e])
           \/ (shown = [] /\ fst (main net now i w) = Unmodelled)).
Proof.
  intros Hsound. unfold main, main_body.
  pose proof (cached_fetch_sound net now (include_evm i, include_svm i, only_testnets i)
                (show heading w) Hsound) as Hfetch.
  change (show [_; _] w) with (show heading w).
  destruct (cached_fetch_chain_data net now _ (show heading w)) as [raw w1].
  cbn [fst snd] in Hfetch. destruct Hfetch as [Hc Hpage]. simpl in Hpage.
  destruct Hpage as [Hpage | (-> & text & Hpage)].
  - destruct (process_chain_data raw) as [df|e|].
    + destruct (df_empty df).
      * simpl. split; [done|]. exists [no_data].
        rewrite Hpage, <-app_assoc. eauto.
      * destruct (_ ← sort_values df "Name" None true; _) as [sorted|e|]; simpl.
        -- split; [done|]. eexists. rewrite Hpage, <-app_assoc.
           split; [done|]. eauto 10.
        -- split; [done|]. eexists. rewrite Hpage, <-app_assoc.
           split; [done|]. eauto 10.
        -- split; [done|]. exists []. split; [by rewrite Hpage|]. eauto 10.
    + simpl. split; [done|]. eexists. rewrite Hpage, <-app_assoc.
      split; [done|]. eauto 10.
    + simpl. split; [done|]. exists []. split; [by rewrite Hpage|]. eauto 10.
  - simpl. split; [done|]. exists [st_error text; no_data].
    rewrite Hpage, <-!app_assoc. split; [done|]. eauto.
Qed.

Lemma cache_sound_empty : cache_sound ∅.
Proof. intros p t v shown Hp. by rewrite lookup_empty in Hp. Qed.

Lemma main_page_shapes_witness :
  cache_sound (cache (snd (main offline 0 default_inputs empty_world)))
  /\ exists shown,
       page (snd (main offline 0 default_inputs empty_world))
       = page empty_world ++ heading ++ shown
       /\ ((exists text, shown = [st_error text; no_data])
           \/ shown = [no_data]
           \/ (exists df, shown = [st_subheader "Chain Data Table"; st_table df])
           \/ (exists e, shown = [st_unexpected e])
           \/ (shown = [] /\ fst (main offline 0 default_inputs empty_world) = Unmodelled)).
Proof.
  apply (main_page_shapes offline 0 default_inputs empty_world).
  apply cache_sound_empty.
Defined.


(** ** Renderer *)

Lemma string_app_assoc (s t u : string) : (s +:+ t) +:+ u = s +:+ t +:+ u.
Proof.
  induction s as [|c s IH]; [done|].
  change (String c ((s +:+ t) +:+ u) = String c (s +:+ t +:+ u)).
  by rewrite IH.
Qed.

Lemma string_app_nil_r (s : string) : s +:+ "" = s.
Proof.
  induction s as [|c s IH]; [done|].
  change (String c (s +:+ "") = String c s). by rewrite IH.
Qed.

Lemma for_each_join {A} (f : A -> string) (xs : list A) (html : string) :
  for_each (fun html x => Ok (html +:+ f x)) xs html = Ok (html +:+ join f xs).
Proof.
  revert html. induction xs as [|x xs IH]; intros html; simpl.
  - by rewrite string_app_nil_r.
  - by rewrite IH, string_app_assoc.
Qed.

Lemma for_each_ext {A} (f g : string -> A -> outcome string) (xs : list A)
    (html : string) :
  Forall (fun x => forall html, f html x = g html x) xs ->
  for_each f xs html = for_each g xs html.
Proof.
  intros Hfg. revert html. induction Hfg as [|x xs Hx _ IH]; intros html; simpl.
  - done.
  - rewrite Hx. destruct (g html x); simpl; [apply IH|done..].
Qed.

Lemma row_getitem_td (row : record) (col : string) (html : string) :
  is_Some (record_get row col) ->
  (x ← row_getitem row col; Ok (html +:+ cell_html col x)) = Ok (html +:+ td row col).
Proof. intros [x Hx]. unfold row_getitem, td. by rewrite Hx. Qed.

Lemma generate_html_table_markup (columns : list string) (df : DataFrame) :
  complete columns df ->
  generate_html_table columns df = Ok (markup columns df).
Proof.
  intros Hdf. unfold generate_html_table, markup.
  rewrite (for_each_join th). simpl.
  rewrite (for_each_ext _ (fun html row => Ok (html +:+ tr columns row))).
  - rewrite for_each_join. simpl. by rewrite !string_app_assoc.
  - eapply Forall_impl; [exact Hdf|]. intros row Hrow html. simpl.
    rewrite (for_each_ext _ (fun html col => Ok (html +:+ td row col))).
    + rewrite for_each_join. simpl. unfold tr. by rewrite !string_app_assoc.
    + eapply Forall_impl; [exact Hrow|]. intros col Hcol html'.
      by apply row_getitem_td.
Qed.


Lemma record_get_is_Some (row : record) (col : string) :
  col ∈ map fst row -> is_Some (record_get row col).
Proof.
  induction row as [|[l c] row IH]; simpl; [by intros ?%elem_of_nil|].
  destruct (String.eqb col l) eqn:Hl; [by eexists|].
  intros [->|Hin]%elem_of_cons; [|by apply IH].
  by rewrite String.eqb_refl in Hl.
Qed.

Lemma process_chain_data_complete (data : pyval) (df : DataFrame) :
  process_chain_data data = Ok df -> complete chain_columns df.
Proof.
  intros Hdf. apply process_chain_data_records in Hdf.
  eapply Forall_impl; [exact Hdf|]. intros row (d & Hcols & _).
  apply Forall_forall. intros col Hcol. apply record_get_is_Some.
  by rewrite Hcols.
Qed.

Lemma elem_of_take {A} (p : list nat) (l : list A) (x : A) :
  x ∈ take p l -> x ∈ l.
Proof.
  intros (i & _ & Hi)%list_elem_of_omap. by eapply list_elem_of_lookup_2.
Qed.

Lemma sort_values_records `{Argsort} (df sorted : DataFrame) (by_ : string)
    (key : option (list cell -> outcome (list cell))) (ascending : bool) :
  sort_values df by_ key ascending = Ok sorted -> Forall (.∈ df) sorted.
Proof.
  unfold sort_values.
  destruct (column df by_) as [k| |]; simpl; [|done..].
  destruct (match key with Some f => f k | None => Ok k end) as [k'| |];
    simpl; [|done..].
  destruct (nargsort k' ascending) as [p| |]; simpl; [|done..].
  intros [= <-]. apply Forall_forall. intros x. apply elem_of_take.
Qed.

Lemma apply_search_records (q : string) (df kept : DataFrame) :
  apply_search q df = Ok kept -> Forall (.∈ df) kept.
Proof.
  intros Hkept. assert (kept `sublist_of` df) as Hsub.
  { revert Hkept. unfold apply_search. destruct (truthy (PStr q)).
    - apply df_filter_sublist.
    - by intros [= <-]. }
  apply Forall_forall. intros x Hx. by eapply elem_of_sublist.
Qed.

Lemma pipeline_records `{Argsort} (i : inputs) (df shown : DataFrame) :
  pipeline i df = Ok shown -> Forall (.∈ df) shown.
Proof.
  unfold pipeline.
  destruct (sort_values df "Name" None true) as [df1| |] eqn:H1; simpl; [|done..].
  destruct (apply_search (search_term i) df1) as [df2| |] eqn:H2; simpl; [|done..].
  intros H3. apply sort_values_records in H1, H3. apply apply_search_records in H2.
  rewrite Forall_forall in *. auto.
Qed.

Lemma complete_records (columns : list string) (df shown : DataFrame) :
  complete columns df -> Forall (.∈ df) shown -> complete columns shown.
Proof.
  unfold complete. rewrite !Forall_forall. auto.
Qed.

(** X13.  The table a run ends with is one that [generate_html_table]
    renders: every record of it has the eight columns, so the markup is the
    opening tag, a row of eight headers, then a row for each record in turn
    with a cell for each column in turn, and the closing tag. *)
Theorem shown_table_renders `{Argsort} (net : network) (now : nat) (i : inputs)
    (w : world) (shown : DataFrame) :
  fst (main net now i w) = Ok () ->
  last (page (snd (main net now i w))) = Some (st_table shown) ->
  generate_html_table chain_columns shown = Ok (markup chain_columns shown).
Proof.
  unfold main, main_body.
  destruct (cached_fetch_chain_data net now _ _) as [raw w1].
  destruct (process_chain_data raw) as [df|e|] eqn:Hdf; simpl.
  - destruct (df_empty df); simpl.
    + intros _. by rewrite last_snoc.
    + change (filtered_df ← sort_values df "Name" None true;
              filtered_df0 ← apply_search (search_term i) filtered_df;
              apply_sort (sort_column i) (sort_order i) filtered_df0)
        with (pipeline i df).
      destruct (pipeline i df) as [sorted|e|] eqn:Hsorted; simpl.
      * intros _. rewrite (last_app_cons _ [_]). simpl. intros [= <-].
        apply generate_html_table_markup.
        eapply complete_records; [by eapply process_chain_data_complete|].
        by eapply pipeline_records.
      * intros _. by rewrite last_snoc.
      * done.
  - intros _. by rewrite last_snoc.
  - done.
Qed.

Lemma shown_table_renders_witness :
  generate_html_table chain_columns
    [[ ("Logo URI", CStr "N/A"); ("Name", CStr "osmosis");
       ("Chain ID", CStr "osmosis-1"); ("PFM Enabled", CStr "N/A");
       ("Chain Type", CStr "N/A"); ("Is Testnet", CStr "N/A");
       ("Pretty Name", CStr "N/A"); ("Bech32 Prefix", CStr "") ]]
  = Ok (markup chain_columns
    [[ ("Logo URI", CStr "N/A"); ("Name", CStr "osmosis");
       ("Chain ID", CStr "osmosis-1"); ("PFM Enabled", CStr "N/A");
       ("Chain Type", CStr "N/A"); ("Is Testnet", CStr "N/A");
       ("Pretty Name", CStr "N/A"); ("Bech32 Prefix", CStr "") ]]).
Proof.
  apply (shown_table_renders osmosis_only 0 default_inputs empty_world);
    vm_compute; reflexivity.
Defined.

Lemma within_refl (s : string) : within s s.
Proof. exists "", "". by rewrite string_app_nil_r. Qed.

Lemma within_app (a b s t : string) : within s t -> within s (a +:+ t +:+ b).
Proof.
  intros (pre & post & ->). exists (a +:+ pre), (post +:+ b).
  by rewrite !string_app_assoc.
Qed.

Lemma within_trans (s t u : string) : within s t -> within t u -> within s u.
Proof. intros Hst (pre & post & ->). by apply within_app. Qed.

Lemma within_join {A} (f : A -> string) (l : list A) (x : A) :
  x ∈ l -> within (f x) (join f l).
Proof.
  induction 1 as [x l|x y l _ IH]; simpl.
  - apply (within_app "" _ _ (f x)), within_refl.
  - rewrite <-(string_app_nil_r (join f l)). by apply within_app.
Qed.

(** X15.  The text of a cell goes into the markup as it is, with nothing
    escaped: in a table cell of its own, or, in the Logo URI column when it
    is not "N/A", as the source of an image. *)
Theorem cell_text_in_markup (columns : list string) (df : DataFrame) (row : record)
    (col s : string) :
  complete columns df ->
  row ∈ df ->
  col ∈ columns ->
  record_get row col = Some (CStr s) ->
  exists html,
    generate_html_table columns df = Ok html
    /\ (col <> "Logo URI" \/ s = "N/A" -> within ("<td>" +:+ s +:+ "</td>") html)
    /\ (col = "Logo URI" /\ s <> "N/A" ->
        within ("<td><img src=" +:+ dq +:+ s +:+ dq +:+ " width=" +:+ dq +:+ "50"
                +:+ dq +:+ "></td>") html).
Proof.
  intros Hdf Hrow Hcol Hs. exists (markup columns df).
  split; [by apply generate_html_table_markup|].
  assert (within (td row col) (markup columns df)) as Hin.
  { apply (within_trans _ (tr columns row)).
    - apply (within_app "<tr>"). by apply (within_join (td row)).
    - destruct (within_join (tr columns) df row Hrow) as (pre & post & Hj).
      exists ("<table style=" +:+ dq +:+ "width:100%" +:+ dq +:+ "><tr>"
              +:+ join th columns +:+ "</tr>" +:+ pre), (post +:+ "</table>").
      unfold markup. rewrite Hj. by rewrite !string_app_assoc. }
  unfold td, cell_html in Hin. rewrite Hs in Hin. simpl in Hin. split.
  - intros Hplain. destruct (String.eqb col "Logo URI") eqn:Hlogo; [|done].
    destruct Hplain as [Hne | ->]; [|done].
    by apply String.eqb_eq in Hlogo.
  - intros [-> Hne]. apply String.eqb_neq in Hne. by rewrite Hne in Hin.
Qed.

Lemma cell_text_in_markup_witness :
  exists html,
    generate_html_table ["Pretty Name"] [[("Pretty Name", CStr "<b>Osmosis</b>")]]
    = Ok html
    /\ ("Pretty Name" <> "Logo URI" \/ "<b>Osmosis</b>" = "N/A" ->
        within ("<td>" +:+ "<b>Osmosis</b>" +:+ "</td>") html)
    /\ ("Pretty Name" = "Logo URI" /\ "<b>Osmosis</b>" <> "N/A" ->
        within ("<td><img src=" +:+ dq +:+ "<b>Osmosis</b>" +:+ dq +:+ " width=" +:+ dq
                +:+ "50" +:+ dq +:+ "></td>") html).
Proof.
  apply (cell_text_in_markup ["Pretty Name"] [[("Pretty Name", CStr "<b>Osmosis</b>")]]
           [("Pretty Name", CStr "<b>Osmosis</b>")]).
  - repeat constructor. by eexists.
  - apply list_elem_of_here.
  - apply list_elem_of_here.
  - reflexivity.
Defined.


(** ** Sorting with missing keys *)

Lemma take_filter_from {A} (f : A -> bool) (l0 l : list A) :
  take (List.filter (fun i => match (l0 ++ l) !! i with
                              | Some x => f x | None => false end)
          (seq (length l0) (length l))) (l0 ++ l)
  = List.filter f l.
Proof.
  revert l0. induction l as [|x l IH]; intros l0; [done|].
  change (seq (length l0) (length (x :: l)))
    with (length l0 :: seq (S (length l0)) (length l)).
  cbn [List.filter]. rewrite list_lookup_middle by done.
  specialize (IH (l0 ++ [x])).
  rewrite length_app, <-app_assoc in IH. simpl in IH.
  rewrite Nat.add_1_r in IH.
  destruct (f x); [|exact IH].
  rewrite (take_cons_Some _ _ _ x) by by apply list_lookup_middle.
  by rewrite IH.
Qed.

Lemma take_filter_seq {A} (f : A -> bool) (l : list A) :
  take (List.filter (fun i => match l !! i with
                              | Some x => f x | None => false end)
          (seq 0 (length l))) l
  = List.filter f l.
Proof. apply (take_filter_from f [] l). Qed.

Lemma filter_seq_Forall2 {A B} (f : A -> bool) (g : B -> bool) (l : list A)
    (k : list B) (n : nat) :
  Forall2 (fun x y => f x = g y) l k ->
  List.filter (fun i => match l !! i with Some x => f x | None => false end) (seq 0 n)
  = List.filter (fun i => match k !! i with Some y => g y | None => false end) (seq 0 n).
Proof.
  intros Hlk. apply List.filter_ext. intros i.
  pose proof (proj1 (Forall2_lookup _ _ _) Hlk i) as Hi.
  by destruct (l !! i), (k !! i); inversion Hi.
Qed.

Lemma take_app {A} (p q : list nat) (l : list A) :
  take (p ++ q) l = take p l ++ take q l.
Proof. unfold take. apply omap_app. Qed.

Lemma filter_seq_range (f : nat -> bool) (n : nat) :
  Forall (fun i => i < n) (List.filter f (seq 0 n)).
Proof.
  apply Forall_forall. intros i Hi.
  apply list_elem_of_In, filter_In in Hi as [Hi _].
  apply list_elem_of_In, elem_of_seq in Hi. lia.
Qed.

Lemma nargsort_unfold `{Argsort} (items : list cell) (ascending : bool) :
  nargsort items ascending =
  (p ← argsort (if ascending then present items else reverse (present items));
   mret ((if ascending
          then take p (List.filter (fun i => match items !! i with
                                             | Some c => negb (cell_isna c)
                                             | None => false end)
                         (seq 0 (length items)))
          else reverse (take p (reverse
                 (List.filter (fun i => match items !! i with
                                        | Some c => negb (cell_isna c)
                                        | None => false end)
                    (seq 0 (length items))))))
         ++ List.filter (fun i => match items !! i with
                                  | Some c => cell_isna c
                                  | None => false end)
              (seq 0 (length items)))).
Proof.
  unfold nargsort, present. cbv zeta.
  rewrite (take_filter_seq (fun c => negb (cell_isna c)) items).
  by destruct ascending.
Qed.

Lemma sort_keys_isna (col : string) (df : DataFrame) (keys : list cell) :
  sort_keys col df = Ok keys ->
  Forall2 (fun r k => is_null col r = cell_isna k) df keys.
Proof.
  unfold sort_keys. destruct (column df col) as [k| |] eqn:Hk; simpl; [|done..].
  apply column_Ok in Hk. intros Hkeys.
  assert (Forall2 (fun a b => cell_isna a = cell_isna b) k keys) as Hna.
  { destruct (String.eqb col "Name").
    - unfold str_lower in Hkeys. destruct (forallb is_str k); [|done].
      injection Hkeys as <-. clear. induction k as [|[] k IH]; by constructor.
    - injection Hkeys as <-. by apply Forall_Forall2_diag, Forall_forall. }
  clear Hkeys. revert keys Hna. induction Hk as [|r c df k Hr _ IH]; intros keys Hna.
  - apply Forall2_nil_inv_l in Hna as ->. constructor.
  - apply Forall2_cons_inv_l in Hna as (c' & keys' & Hc & Hna & ->).
    constructor; [|by apply IH]. unfold is_null. by rewrite Hr.
Qed.

(** X10.  Records with null under the sort column come last whichever order
    is asked for, in the order they had; before them come the other records,
    their keys in the order asked for. *)
Theorem nulls_sorted_last `{Argsort} (col sort_order : string) (df : DataFrame)
    (keys : list cell) :
  sort_keys col df = Ok keys ->
  orderable (present keys) = true ->
  exists front kf,
    apply_sort col sort_order df = Ok (front ++ List.filter (is_null col) df)
    /\ front ≡ₚ List.filter (fun r => negb (is_null col r)) df
    /\ sort_keys col front = Ok kf
    /\ Sorted (in_order sort_order) kf.
Proof.
  intros Hkeys Hord.
  pose proof (sort_keys_length _ _ _ Hkeys) as Hlen.
  pose proof (sort_keys_isna _ _ _ Hkeys) as Hna.
  set (P := List.filter (fun i => match keys !! i with
                                  | Some c => negb (cell_isna c)
                                  | None => false end) (seq 0 (length keys))).
  assert (Forall (fun i => i < length df) P) as HP
    by (rewrite <-Hlen; apply filter_seq_range).
  assert (take P keys = present keys) as HPk
    by apply (take_filter_seq (fun c => negb (cell_isna c))).
  assert (take P df = List.filter (fun r => negb (is_null col r)) df) as HPd.
  { unfold P. rewrite <-(filter_seq_Forall2 (fun r => negb (is_null col r))
                           (fun c => negb (cell_isna c)) df keys).
    - rewrite Hlen. apply (take_filter_seq (fun r => negb (is_null col r))).
    - eapply Forall2_impl; [exact Hna|]. by intros r k ->. }
  assert (take (List.filter (fun i => match keys !! i with
                                      | Some c => cell_isna c
                                      | None => false end) (seq 0 (length keys))) df
          = List.filter (is_null col) df) as HM.
  { rewrite <-(filter_seq_Forall2 (is_null col) cell_isna df keys) by done.
    rewrite Hlen. apply (take_filter_seq (is_null col)). }
  assert (length (present keys) = length (take P df)) as HlenP.
  { rewrite <-HPk. symmetry. eapply Forall2_length, take_Forall2, Hna. }
  pose proof (sort_keys_take _ P _ _ Hkeys) as HkP. rewrite HPk in HkP.
  rewrite apply_sort_unfold, Hkeys. simpl. rewrite nargsort_unfold.
  fold P. unfold in_order.
  destruct (String.eqb sort_order "Ascending").
  - destruct (argsort_sorts (present keys) Hord) as (p & -> & Hp & Hsorted).
    simpl. rewrite take_app, HM, (take_take p P df HP).
    exists (take p (take P df)), (take p (present keys)).
    split; [done|]. split; [|split; [by apply sort_keys_take|done]].
    rewrite <-HPd. apply take_perm. by rewrite <-HlenP.
  - destruct (argsort_sorts (reverse (present keys))) as (q & -> & Hq & Hsorted).
    { by rewrite orderable_reverse. }
    simpl. rewrite take_app, HM, take_reverse.
    rewrite (take_take q (reverse P) df) by by apply Forall_reverse.
    rewrite take_reverse.
    exists (reverse (take q (reverse (take P df)))),
           (reverse (take q (reverse (present keys)))).
    split; [done|]. split; [|split].
    + rewrite reverse_Permutation, <-HPd.
      rewrite take_perm; [apply reverse_Permutation|].
      rewrite length_reverse in Hq. by rewrite length_reverse, <-HlenP.
    + by apply sort_keys_reverse, sort_keys_take, sort_keys_reverse.
    + by apply Sorted_reverse.
Qed.

Lemma nulls_sorted_last_witness :
  exists front kf,
    apply_sort "Chain ID" "Descending"
      [ [("Name", CStr "a"); ("Chain ID", CNone)];
        [("Name", CStr "b"); ("Chain ID", CStr "b-2")];
        [("Name", CStr "c"); ("Chain ID", CNone)];
        [("Name", CStr "d"); ("Chain ID", CStr "d-4")] ]
    = Ok (front ++ List.filter (is_null "Chain ID")
      [ [("Name", CStr "a"); ("Chain ID", CNone)];
        [("Name", CStr "b"); ("Chain ID", CStr "b-2")];
        [("Name", CStr "c"); ("Chain ID", CNone)];
        [("Name", CStr "d"); ("Chain ID", CStr "d-4")] ])
    /\ front ≡ₚ List.filter (fun r => negb (is_null "Chain ID" r))
      [ [("Name", CStr "a"); ("Chain ID", CNone)];
        [("Name", CStr "b"); ("Chain ID", CStr "b-2")];
        [("Name", CStr "c"); ("Chain ID", CNone)];
        [("Name", CStr "d"); ("Chain ID", CStr "d-4")] ]
    /\ sort_keys "Chain ID" front = Ok kf
    /\ Sorted (in_order "Descending") kf.
Proof.
  apply (nulls_sorted_last "Chain ID" "Descending" _
           [CNone; CStr "b-2"; CNone; CStr "d-4"]); reflexivity.
Defined.


(** ** Sorting by distinct keys *)

(** X11.  Where no two records have the same key under the sort column, the
    sorted frame is the same whatever routine ranks the keys: the order of
    the table is fixed by the records and the order asked for. *)
Theorem sort_same_for_every_ranking (A1 A2 : Argsort) (col sort_order : string)
    (df : DataFrame) (keys : list cell) :
  sort_keys col df = Ok keys ->
  orderable keys = true ->
  NoDup keys ->
  apply_sort (H := A1) col sort_order df = apply_sort (H := A2) col sort_order df.
Proof.
  intros Hkeys Hord Hnodup.
  destruct (nargsort_orderable (H := A1) keys Hord)
    as (p1 & q1 & Hasc1 & Hdesc1 & Hp1 & Hq1 & Hps1 & Hqs1).
  destruct (nargsort_orderable (H := A2) keys Hord)
    as (p2 & q2 & Hasc2 & Hdesc2 & Hp2 & Hq2 & Hps2 & Hqs2).
  assert (forall p p', p ≡ₚ seq 0 (length keys) -> p' ≡ₚ seq 0 (length keys) ->
            Sorted cell_le (take p keys) -> Sorted cell_le (take p' keys) ->
            p = p') as Hsame.
  { intros p p' Hp Hp' Hs Hs'.
    eapply take_inj; eauto using perm_seq_range.
    apply (StronglySorted_unique cell_le).
    - by apply (stdpp.sorting.Sorted_StronglySorted cell_le).
    - by apply (stdpp.sorting.Sorted_StronglySorted cell_le).
    - by rewrite !take_perm. }
  rewrite !apply_sort_unfold, Hkeys. simpl.
  destruct (String.eqb sort_order "Ascending").
  - rewrite Hasc1, Hasc2. by rewrite (Hsame p1 p2).
  - rewrite Hdesc1, Hdesc2. by rewrite (Hsame q1 q2).
Qed.

Lemma sort_same_for_every_ranking_witness :
  apply_sort (H := merge_ranking) "Chain ID" "Descending" three_chains
  = apply_sort (H := merge_ranking) "Chain ID" "Descending" three_chains.
Proof.
  apply (sort_same_for_every_ranking merge_ranking merge_ranking "Chain ID" "Descending"
           three_chains [CStr "b-2"; CStr "a-1"; CStr "c-3"]).
  - reflexivity.
  - reflexivity.
  - apply NoDup_ListNoDup. repeat constructor; simpl; intuition discriminate.
Defined.
